(** * NVP game bot: a shallow embedding of [bot.py] and its session rules

    The bot keeps one dictionary [GAMES] from group chat ids to game
    dictionaries and exposes command handlers ([newgame], [join], [secret],
    [guess], [cancel]).  Every handler reads the incoming update, possibly
    mutates [GAMES], and answers with text messages.

    Python values are modelled as follows:
    - a [str] is the list of its Unicode code points ([list Z]);
    - an [int] is a [Z];
    - the dictionaries held inside a game ([player_names], [secrets]) are
      [gmap]s, the list [players] is a [list Z];
    - [GAMES] itself is an insertion-ordered association list, because the
      [secret] handler depends on the iteration order of the dictionary;
    - a handler is a computation in a small state-and-exception monad whose
      state is [GAMES] together with the messages sent so far; what a
      handler has done when an exception is raised stays done.

    [status] only reads [GAMES] and is modelled by the text it sends.  The
    handlers [start] and [help_cmd] send a fixed text; they, the logging
    set-up, [main] and the pattern [SECRET_RE], which no handler uses, are
    left out. *)

From stdpp Require Import gmap list strings.

Set Warnings "-clear-no-such-hyp".

Open Scope Z_scope.

(** ** Python strings *)

Abbreviation pystr := (list Z).

(** An ASCII literal as a Python string. *)
Definition str (s : string) : pystr :=
  (λ a, Z.of_N (Ascii.N_of_ascii a)) <$> String.list_ascii_of_string s.

(** Code points [c] for which [chr(c).isdigit()] holds (Unicode 14.0,
    Numeric_Type Decimal or Digit), as inclusive ranges. *)
Definition digit_ranges : list (Z * Z) :=
  [ (48, 57); (178, 179); (185, 185); (1632, 1641); (1776, 1785);
    (1984, 1993); (2406, 2415); (2534, 2543); (2662, 2671); (2790, 2799);
    (2918, 2927); (3046, 3055); (3174, 3183); (3302, 3311); (3430, 3439);
    (3558, 3567); (3664, 3673); (3792, 3801); (3872, 3881); (4160, 4169);
    (4240, 4249); (4969, 4977); (6112, 6121); (6160, 6169); (6470, 6479);
    (6608, 6618); (6784, 6793); (6800, 6809); (6992, 7001); (7088, 7097);
    (7232, 7241); (7248, 7257); (8304, 8304); (8308, 8313); (8320, 8329);
    (9312, 9320); (9332, 9340); (9352, 9360); (9450, 9450); (9461, 9469);
    (9471, 9471); (10102, 10110); (10112, 10120); (10122, 10130);
    (42528, 42537); (43216, 43225); (43264, 43273); (43472, 43481);
    (43504, 43513); (43600, 43609); (44016, 44025); (65296, 65305);
    (66720, 66729); (68160, 68163); (68912, 68921); (69216, 69224);
    (69714, 69722); (69734, 69743); (69872, 69881); (69942, 69951);
    (70096, 70105); (70384, 70393); (70736, 70745); (70864, 70873);
    (71248, 71257); (71360, 71369); (71472, 71481); (71904, 71913);
    (72016, 72025); (72784, 72793); (73040, 73049); (73120, 73129);
    (92768, 92777); (92864, 92873); (93008, 93017); (120782, 120831);
    (123200, 123209); (123632, 123641); (125264, 125273); (127232, 127242);
    (130032, 130041) ].

(** Code points [c] for which [chr(c).isspace()] holds. *)
Definition space_ranges : list (Z * Z) :=
  [ (9, 13); (28, 32); (133, 133); (160, 160); (5760, 5760); (8192, 8202);
    (8232, 8233); (8239, 8239); (8287, 8287); (12288, 12288) ].

Definition in_ranges (rs : list (Z * Z)) (c : Z) : bool :=
  existsb (λ r, (r.1 <=? c) && (c <=? r.2)) rs.

Definition char_isdigit (c : Z) : bool := in_ranges digit_ranges c.
Definition char_isspace (c : Z) : bool := in_ranges space_ranges c.

(** [s.isdigit()]: every character is a digit and there is at least one. *)
Definition isdigit (s : pystr) : bool :=
  match s with
  | [] => false
  | _ => forallb char_isdigit s
  end.

Fixpoint lstrip (s : pystr) : pystr :=
  match s with
  | c :: s' => if char_isspace c then lstrip s' else s
  | [] => []
  end.

(** [s.strip()] *)
Definition strip (s : pystr) : pystr := reverse (lstrip (reverse (lstrip s))).

(** The characters ['0'], ['1'] and ['9']. *)
Definition ch0 : Z := 48.
Definition ch1 : Z := 49.
Definition ch9 : Z := 57.

(** ** Exceptions and fallible expressions *)

Inductive exn := IndexError | KeyError | TypeError.

Inductive res (A : Type) :=
  | Ok (a : A)
  | Raise (e : exn).
Arguments Ok {A} a.
Arguments Raise {A} e.

Definition res_bind {A B} (m : res A) (f : A → res B) : res B :=
  match m with
  | Ok a => f a
  | Raise e => Raise e
  end.

Notation "'let?' x := m 'in' k" := (res_bind m (λ x, k))
  (at level 10, x name, m at level 100, k at level 200, only parsing).

(** [l[i]] for a non-negative index. *)
Definition getitem {A} (l : list A) (i : nat) : res A :=
  match l !! i with
  | Some x => Ok x
  | None => Raise IndexError
  end.

(** [l[i]] for any Python integer: a negative index counts from the end. *)
Definition getitem_int {A} (l : list A) (i : Z) : res A :=
  if 0 <=? i then getitem l (Z.to_nat i)
  else if 0 <=? Z.of_nat (length l) + i
       then getitem l (Z.to_nat (Z.of_nat (length l) + i))
       else Raise IndexError.

(** [d[k]] on a dictionary. *)
Definition dict_item {V} (d : gmap Z V) (k : Z) : res V :=
  match d !! k with
  | Some v => Ok v
  | None => Raise KeyError
  end.

(** ** [valid_secret] and [compare_guess] *)

Definition valid_secret (num : pystr) : bool :=
  if negb (isdigit num) || negb (length num =? 4)%nat then false
  else
    let digits := num in
    if bool_decide (ch0 ∈ digits) then false
    else if negb (size (list_to_set digits : gset Z) =? 4)%nat then false
    else true.

(** [guess[i] == secret[i]], raising [IndexError] as Python does. *)
Definition same_at (secret guess : pystr) (i : nat) : res bool :=
  let? g := getitem guess i in
  let? s := getitem secret i in
  Ok (bool_decide (g = s)).

(** [[guess[i] for i in idx if guess[i] == secret[i]]] *)
Fixpoint matching_digits (secret guess : pystr) (idx : list nat) : res pystr :=
  match idx with
  | [] => Ok []
  | i :: idx' =>
      let? g := getitem guess i in
      let? s := getitem secret i in
      let? rest := matching_digits secret guess idx' in
      Ok (if bool_decide (g = s) then g :: rest else rest)
  end.

(** [sum(1 for i in idx if guess[i] == secret[i])] *)
Fixpoint count_positions (secret guess : pystr) (idx : list nat) : res nat :=
  match idx with
  | [] => Ok 0%nat
  | i :: idx' =>
      let? b := same_at secret guess i in
      let? n := count_positions secret guess idx' in
      Ok (if b then S n else n)
  end.

(** [range(4)] *)
Definition range4 : list nat := [0; 1; 2; 3]%nat.

Definition compare_guess (secret guess : pystr) : res (nat * nat) :=
  let values := length (filter (λ d, d ∈ secret) guess) in
  let? positions := count_positions secret guess range4 in
  Ok (values, positions).

(** ** Game dictionaries and the [GAMES] table *)

(** The value stored under a chat id: the dictionary built in [newgame],
    with exactly the keys ['players'], ['player_names'], ['secrets'],
    ['turn_index'] and ['finished']. *)
Record game := Game {
  players : list Z;
  player_names : gmap Z (list Z);
  secrets : gmap Z (option (list Z));
  turn_index : Z;
  finished : bool
}.

Definition set_players (g : game) (ps : list Z) : game :=
  Game ps (player_names g) (secrets g) (turn_index g) (finished g).
Definition set_player_names (g : game) (ns : gmap Z (list Z)) : game :=
  Game (players g) ns (secrets g) (turn_index g) (finished g).
Definition set_secrets (g : game) (ss : gmap Z (option (list Z))) : game :=
  Game (players g) (player_names g) ss (turn_index g) (finished g).
Definition set_turn_index (g : game) (t : Z) : game :=
  Game (players g) (player_names g) (secrets g) t (finished g).
Definition set_finished (g : game) (b : bool) : game :=
  Game (players g) (player_names g) (secrets g) (turn_index g) b.

(** The dictionary literal of [newgame]. *)
Definition new_game : game := Game [] ∅ ∅ 0 false.

(** Python values, as far as game dictionaries hold them. *)
Inductive value :=
  | VList (l : list Z)
  | VNames (d : gmap Z (list Z))
  | VSecrets (d : gmap Z (option (list Z)))
  | VInt (n : Z)
  | VBool (b : bool).

(** [game.get(key)]: the game seen as the Python dictionary it is. *)
Definition game_get (g : game) (key : string) : option value :=
  if String.eqb key "players" then Some (VList (players g))
  else if String.eqb key "player_names" then Some (VNames (player_names g))
  else if String.eqb key "secrets" then Some (VSecrets (secrets g))
  else if String.eqb key "turn_index" then Some (VInt (turn_index g))
  else if String.eqb key "finished" then Some (VBool (finished g))
  else None.

(** [GAMES]: chat id to game, in insertion order. *)
Abbreviation store := (list (Z * game)).

(** [GAMES.get(k)] *)
Fixpoint store_get (G : store) (k : Z) : option game :=
  match G with
  | [] => None
  | (k', g) :: G' => if bool_decide (k' = k) then Some g else store_get G' k
  end.

(** [GAMES[k] = g]: an existing key keeps its place, a new one goes last. *)
Fixpoint store_set (G : store) (k : Z) (g : game) : store :=
  match G with
  | [] => [(k, g)]
  | (k', g') :: G' =>
      if bool_decide (k' = k) then (k, g) :: G'
      else (k', g') :: store_set G' k g
  end.

(** [GAMES.pop(k, None)] *)
Fixpoint store_pop (G : store) (k : Z) : store :=
  match G with
  | [] => []
  | (k', g') :: G' =>
      if bool_decide (k' = k) then G' else (k', g') :: store_pop G' k
  end.

(** ** Updates and outgoing messages *)

Inductive chat_type := Private | Group | Supergroup | Channel.

(** What a handler reads from [update] and [context]. *)
Record update := Update {
  chat_kind : chat_type;   (* update.effective_chat.type *)
  chat_id : Z;             (* update.effective_chat.id *)
  user_id : Z;             (* update.effective_user.id *)
  first_name : list Z;     (* update.effective_user.first_name *)
  args : list (list Z)     (* context.args *)
}.

Definition is_private (u : update) : bool :=
  match chat_kind u with Private => true | _ => false end.

(** One constructor for each text the handlers send; the arguments are the
    values formatted into the text. *)
Inductive message :=
  (* newgame *)
  | NewgameInPrivate        (* "Please run /newgame in a GROUP chat ..." *)
  | GameAlreadyActive       (* "A game is already active in this group. ..." *)
  | GameCreated             (* "New NVP game created! Players: 0/2. ..." *)
  (* join *)
  | JoinInPrivate           (* "You must join from the group chat ..." *)
  | NoActiveGameHere        (* "No active game here. Start one with /newgame" *)
  | AlreadyJoined           (* "You already joined the game." *)
  | GameFull                (* "Game already has 2 players." *)
  | Joined (name : list Z) (n : nat)   (* "{name} joined the game! Players: {n}/2" *)
  | TwoPlayersJoined (p1 p2 : list Z)  (* "Two players joined: {p1} and {p2}. ..." *)
  (* secret *)
  | SecretNotPrivate        (* "Send your secret privately to me. ..." *)
  | SecretUsage             (* "Usage: /secret 4567" *)
  | InvalidSecret           (* "Invalid secret. It must be 4 digits long, ..." *)
  | NoGameAwaitingSecret    (* "Could not find an active game where you need to set a secret. ..." *)
  | SecretSaved (gid : Z)   (* "Secret for game in group {gid} saved. ..." *)
  | BothSecretsSet (p1 p2 : list Z)    (* "Both players have set their secrets. ..." *)
  (* guess *)
  | GuessInPrivate          (* "You should make guesses in the GROUP chat ..." *)
  | NoActiveGameInGroup     (* "No active game in this group. Start one with /newgame" *)
  | NotAPlayer              (* "You are not a player in the current game." *)
  | GuessUsage              (* "Usage: /guess 7364" *)
  | InvalidGuess            (* "Invalid guess. It must be 4 digits long, ..." *)
  | WaitingForSecrets       (* "Waiting for both players to privately set their secrets ..." *)
  | NotYourTurn (cur_name : list Z)    (* "It's not your turn. It's {cur_name}'s turn." *)
  | GuessResult (name guess_num : list Z) (values positions : nat)
                (correct_pos_digits : list Z)
                            (* "{name} guessed {guess_num} → values=..., positions=... (...)" *)
  | Wins (name opponent_name : list Z) (* "{name} guessed the secret of {opponent_name} and wins the game!" *)
  | NextTurn (next_player : list Z)    (* "Now it's {next_player}'s turn." *)
  (* cancel *)
  | CancelInPrivate         (* "Use /cancel in the group to cancel the active game there." *)
  | NoGameToCancel          (* "No active game to cancel." *)
  | GameCancelled.          (* "Game cancelled." *)

Inductive event :=
  | Reply (m : message)                  (* update.message.reply_text(m) *)
  | SendMessage (chat : Z) (m : message) (* context.bot.send_message(chat_id=chat, text=m) *)
  | GetChat (chat : Z).                  (* context.bot.get_chat(chat) *)

(** ** The handler monad *)

Record world := World {
  GAMES : store;
  sent : list event
}.

Definition M (A : Type) : Type := world → res A * world.

Definition ret {A} (a : A) : M A := λ w, (Ok a, w).

Definition bind {A B} (m : M A) (f : A → M B) : M B := λ w,
  match m w with
  | (Ok a, w') => f a w'
  | (Raise e, w') => (Raise e, w')
  end.

Notation "'let!' x := m 'in' k" := (bind m (λ x, k))
  (at level 10, x name, m at level 100, k at level 200, only parsing).

(** An expression that may raise, evaluated inside a handler. *)
Definition eval {A} (r : res A) : M A := λ w, (r, w).

Definition get_games : M store := λ w, (Ok (GAMES w), w).
Definition put_games (G : store) : M unit := λ w, (Ok tt, World G (sent w)).

(** A mutation of the game dictionary stored under [k], written back. *)
Definition set_game (k : Z) (g : game) : M unit := λ w,
  (Ok tt, World (store_set (GAMES w) k g) (sent w)).

Definition emit (e : event) : M unit := λ w,
  (Ok tt, World (GAMES w) (sent w ++ [e])).

Definition reply_text (m : message) : M unit := emit (Reply m).
Definition send_message (chat : Z) (m : message) : M unit := emit (SendMessage chat m).
Definition get_chat (chat : Z) : M unit := emit (GetChat chat).

(** Running a handler on a table: outcome, table afterwards, messages. *)
Definition run (m : M unit) (G : store) : res unit * world := m (World G []).
Definition outcome (m : M unit) (G : store) : res unit := (run m G).1.
Definition games_after (m : M unit) (G : store) : store := GAMES (run m G).2.
Definition sent_by (m : M unit) (G : store) : list event := sent (run m G).2.

(** ** Command handlers *)

(** [chat_id in GAMES and not GAMES[chat_id].get('finished', True)] *)
Definition has_active (G : store) (k : Z) : bool :=
  match store_get G k with
  | Some g => negb (finished g)
  | None => false
  end.

(** The truth value of [secrets.get(pid)]: set and not the empty string. *)
Definition secret_set (g : game) (pid : Z) : bool :=
  match secrets g !! pid with
  | Some (Some (_ :: _)) => true
  | _ => false
  end.

(** [all(game['secrets'].get(pid) for pid in game['players'])] *)
Definition all_secrets_set (g : game) : bool :=
  forallb (secret_set g) (players g).

(** [secrets.get(pid) is None] *)
Definition secret_is_none (g : game) (pid : Z) : bool :=
  match secrets g !! pid with
  | Some (Some _) => false
  | _ => true
  end.

Definition newgame (u : update) : M unit :=
  if is_private u then reply_text NewgameInPrivate
  else
    let! G := get_games in
    if has_active G (chat_id u) then reply_text GameAlreadyActive
    else
      let! _ := put_games (store_set G (chat_id u) new_game) in
      reply_text GameCreated.

Definition join (u : update) : M unit :=
  if is_private u then reply_text JoinInPrivate
  else
    let! G := get_games in
    match store_get G (chat_id u) with
    | None => reply_text NoActiveGameHere
    | Some game =>
        if finished game then reply_text NoActiveGameHere
        else if bool_decide (user_id u ∈ players game) then
          reply_text AlreadyJoined
        else if (2 <=? length (players game))%nat then reply_text GameFull
        else
          let game := set_players game (players game ++ [user_id u]) in
          let! _ := set_game (chat_id u) game in
          let game :=
            set_player_names game
              (<[user_id u := first_name u]> (player_names game)) in
          let! _ := set_game (chat_id u) game in
          let game :=
            set_secrets game (<[user_id u := None]> (secrets game)) in
          let! _ := set_game (chat_id u) game in
          let! _ :=
            reply_text (Joined (first_name u) (length (players game))) in
          if (length (players game) =? 2)%nat then
            let! id1 := eval (getitem (players game) 0) in
            let! p1 := eval (dict_item (player_names game) id1) in
            let! id2 := eval (getitem (players game) 1) in
            let! p2 := eval (dict_item (player_names game) id2) in
            reply_text (TwoPlayersJoined p1 p2)
          else ret tt
    end.

(** The filter of the scan in [secret]: the user plays in [g], [g] is not
    finished, and the user's secret there is still [None]. *)
Definition awaits_secret (uid : Z) (g : game) : bool :=
  bool_decide (uid ∈ players g) && negb (finished g) && secret_is_none g uid.

Definition secret (u : update) : M unit :=
  if negb (is_private u) then reply_text SecretNotPrivate
  else
    match args u with
    | [a] =>
        let num := strip a in
        if negb (valid_secret num) then reply_text InvalidSecret
        else
          let! G := get_games in
          let games_for_user :=
            filter (λ e, awaits_secret (user_id u) e.2 = true) G in
          match games_for_user with
          | [] => reply_text NoGameAwaitingSecret
          | (gid, game) :: _ =>
              let game :=
                set_secrets game (<[user_id u := Some num]> (secrets game)) in
              let! _ := set_game gid game in
              let! _ := reply_text (SecretSaved gid) in
              if all_secrets_set game then
                let! _ := get_chat gid in
                let! id1 := eval (getitem (players game) 0) in
                let! p1 := eval (dict_item (player_names game) id1) in
                let! id2 := eval (getitem (players game) 1) in
                let! p2 := eval (dict_item (player_names game) id2) in
                send_message gid (BothSecretsSet p1 p2)
              else ret tt
          end
    | _ => reply_text SecretUsage
    end.

(** [compare_guess(opponent_secret, guess_num)] where the stored secret may
    still be [None], which is not iterable. *)
Definition compare_with (opponent_secret : option (list Z)) (guess_num : list Z)
    : res (nat * nat * list Z) :=
  match opponent_secret with
  | None => Raise TypeError
  | Some sec =>
      let? vp := compare_guess sec guess_num in
      let? correct_pos_digits := matching_digits sec guess_num range4 in
      Ok (vp, correct_pos_digits)
  end.

Definition guess (u : update) : M unit :=
  if is_private u then reply_text GuessInPrivate
  else
    let! G := get_games in
    match store_get G (chat_id u) with
    | None => reply_text NoActiveGameInGroup
    | Some game =>
        if finished game then reply_text NoActiveGameInGroup
        else if negb (bool_decide (user_id u ∈ players game)) then
          reply_text NotAPlayer
        else
          match args u with
          | [a] =>
              let guess_num := strip a in
              if negb (valid_secret guess_num) then reply_text InvalidGuess
              else if negb (all_secrets_set game) then
                reply_text WaitingForSecrets
              else
                let! current_player_id :=
                  eval (getitem_int (players game) (turn_index game)) in
                if negb (bool_decide (user_id u = current_player_id)) then
                  let! cur_name :=
                    eval (dict_item (player_names game) current_player_id) in
                  reply_text (NotYourTurn cur_name)
                else
                  let! opponent_id :=
                    eval (getitem
                            (filter (λ pid, pid ≠ user_id u) (players game))
                            0) in
                  let! opponent_name :=
                    eval (dict_item (player_names game) opponent_id) in
                  let! opponent_secret :=
                    eval (dict_item (secrets game) opponent_id) in
                  let! cmp := eval (compare_with opponent_secret guess_num) in
                  let values := cmp.1.1 in
                  let positions := cmp.1.2 in
                  let correct_pos_digits := cmp.2 in
                  let! _ :=
                    reply_text (GuessResult (first_name u) guess_num values
                                  positions correct_pos_digits) in
                  if (positions =? 4)%nat then
                    let! _ := reply_text (Wins (first_name u) opponent_name) in
                    set_game (chat_id u) (set_finished game true)
                  else
                    let game :=
                      set_turn_index game (1 - turn_index game) in
                    let! _ := set_game (chat_id u) game in
                    let! next_id :=
                      eval (getitem_int (players game) (turn_index game)) in
                    let! next_player :=
                      eval (dict_item (player_names game) next_id) in
                    reply_text (NextTurn next_player)
          | _ => reply_text GuessUsage
          end
    end.

Definition cancel (u : update) : M unit :=
  if is_private u then reply_text CancelInPrivate
  else
    let! G := get_games in
    match store_get G (chat_id u) with
    | None => reply_text NoGameToCancel
    | Some _ =>
        let! _ := put_games (store_pop G (chat_id u)) in
        reply_text GameCancelled
    end.

(** ** The session view of a game

    The bot stores no phase: a game only carries the [finished] flag.  The
    phases of a session are read off the dictionary as follows. *)

Inductive phase := FORMING | AWAITING_SECRETS | IN_PROGRESS | FINISHED.

Definition phase_of (g : game) : phase :=
  if finished g then FINISHED
  else if (length (players g) <? 2)%nat then FORMING
  else if all_secrets_set g then IN_PROGRESS
  else AWAITING_SECRETS.

(** The seat of a player: the index of the identity in [players]. *)
Definition seat_of (g : game) (uid : Z) : option nat :=
  fst <$> list_find (λ pid, pid = uid) (players g).

(** The shape every game dictionary built by the handlers has: at most two
    distinct players, each with a display name, committed secrets that
    passed [valid_secret], and a turn index that is 0 or 1. *)
Definition secret_ok (g : game) (pid : Z) : bool :=
  match secrets g !! pid with
  | Some (Some s) => valid_secret s
  | _ => true
  end.

Definition wf_game (g : game) : bool :=
  bool_decide (NoDup (players g))
  && (length (players g) <=? 2)%nat
  && forallb (λ pid, bool_decide (is_Some (player_names g !! pid))) (players g)
  && forallb (secret_ok g) (players g)
  && (bool_decide (turn_index g = 0) || bool_decide (turn_index g = 1)).

(** ** A sample match *)

Definition ann : update := Update Group 100 1 (str "Ann") [].
Definition bob : update := Update Group 100 2 (str "Bob") [].
Definition eve : update := Update Group 100 3 (str "Eve") [].

Definition with_args (u : update) (a : string) : update :=
  Update (chat_kind u) (chat_id u) (user_id u) (first_name u) [str a].

(** The same user writing to the bot in the private chat. *)
Definition in_private (u : update) : update :=
  Update Private (user_id u) (user_id u) (first_name u) (args u).

(** The table after running the handlers one after the other. *)
Definition play (hs : list (M unit)) (G : store) : store :=
  fold_left (λ G h, games_after h G) hs G.

(** Both joined, nobody has sent a secret. *)
Definition awaiting_table : store :=
  play [newgame ann; join ann; join bob] [].

(** Ann holds "1234", Bob holds "5678", Ann is to move. *)
Definition started_table : store :=
  play [secret (with_args (in_private ann) "1234");
        secret (with_args (in_private bob) "5678")] awaiting_table.

(** Ann has guessed Bob's secret. *)
Definition finished_table : store :=
  play [guess (with_args ann "5678")] started_table.

(** Ann alone has joined and already sent her secret. *)
Definition lonely_table : store :=
  play [newgame ann; join ann; secret (with_args (in_private ann) "1234")] [].

Definition started_game : game :=
  Game [1; 2] {[ 1 := str "Ann"; 2 := str "Bob" ]}
       {[ 1 := Some (str "1234"); 2 := Some (str "5678") ]} 0 false.

Definition awaiting_game : game :=
  Game [1; 2] {[ 1 := str "Ann"; 2 := str "Bob" ]}
       {[ 1 := None; 2 := None ]} 0 false.

Definition finished_game : game := set_finished started_game true.

Definition lonely_game : game :=
  Game [1] {[ 1 := str "Ann" ]} {[ 1 := Some (str "1234") ]} 0 false.

(** The Arabic-Indic digits zero to three, U+0660 to U+0663. *)
Definition arabic_0123 : list Z := [1632; 1633; 1634; 1635].

(** Ann has sent her secret, Bob has not. *)
Definition half_table : store :=
  play [secret (with_args (in_private ann) "1234")] awaiting_table.

Definition half_game : game :=
  Game [1; 2] {[ 1 := str "Ann"; 2 := str "Bob" ]}
       {[ 1 := Some (str "1234"); 2 := None ]} 0 false.

(** Ann has joined a game in chat 100 and then one in chat 200. *)
Definition ann_in_200 : update := Update Group 200 1 (str "Ann") [].

Definition joined_game : game :=
  Game [1] {[ 1 := str "Ann" ]} {[ 1 := None ]} 0 false.

Definition two_games_table : store :=
  play [newgame ann; join ann; newgame ann_in_200; join ann_in_200] [].

(** The match of chat 100 is running; Ann and Bob have also joined a new
    game in chat 200. *)
Definition bob_in_200 : update := Update Group 200 2 (str "Bob") [].

Definition rematch_table : store :=
  play [newgame ann_in_200; join ann_in_200; join bob_in_200] started_table.

(** ** Outcomes of an evaluated guess *)

(** The game a winning guess leaves behind, and the one a miss leaves. *)
Definition won (g : game) : game := set_finished g true.
Definition passed (g : game) : game := set_turn_index g (1 - turn_index g).

(** ** Sequences of updates *)

(** The three operations on a session. *)
Inductive session_op := OpJoin | OpSecret | OpGuess.

Definition handler (op : session_op) : update → M unit :=
  match op with
  | OpJoin => join
  | OpSecret => secret
  | OpGuess => guess
  end.

(** In a table with one game per chat id, the game under [k] has player
    [uid] and holds the secret [s] for that player. *)
Definition holds_secret (G : store) (k uid : Z) (s : list Z) : Prop :=
  NoDup G.*1
  ∧ ∃ g, store_get G k = Some g
         ∧ uid ∈ players g ∧ secrets g !! uid = Some (Some s).

(** ** Tables the bot can reach *)

Inductive command := CmdNewgame | CmdJoin | CmdSecret | CmdGuess | CmdCancel.

Definition dispatch (c : command) : update → M unit :=
  match c with
  | CmdNewgame => newgame
  | CmdJoin => join
  | CmdSecret => secret
  | CmdGuess => guess
  | CmdCancel => cancel
  end.

(** The tables that arise from the empty one by handling updates. *)
Inductive reachable : store → Prop :=
  | reachable_empty : reachable []
  | reachable_step G c u :
      reachable G → reachable (games_after (dispatch c u) G).

Definition store_ok (G : store) : Prop :=
  NoDup G.*1 ∧ Forall (λ e, wf_game e.2 = true) G.

(** ** The [status] handler

    [status] reads [GAMES] and sends one text; it is modelled by the text it
    sends, or the exception raised while the text is put together. *)

Inductive status_message :=
  | StatusInPrivate         (* "Use /status in the group where the game is running ..." *)
  | NoGameHere              (* "No game here." *)
  | NoActiveGameFinished    (* "No active game (finished). Start a new one with /newgame" *)
  | StatusLine (names : list (list Z)) (secrets_set : nat) (turn : Z).
                            (* "Players: {names}. Secrets set: {secrets_set}/2. Next turn index: {turn}" *)

(** [[game['player_names'][pid] for pid in pids]] *)
Fixpoint names_of (g : game) (pids : list Z) : res (list (list Z)) :=
  match pids with
  | [] => Ok []
  | pid :: pids' =>
      let? name := dict_item (player_names g) pid in
      let? names := names_of g pids' in
      Ok (name :: names)
  end.

(** [sum(1 for pid in game['players'] if game['secrets'].get(pid))] *)
Definition count_secrets_set (g : game) : nat :=
  length (filter (λ pid, secret_set g pid = true) (players g)).

Definition status (u : update) (G : store) : res status_message :=
  if is_private u then Ok StatusInPrivate
  else
    match store_get G (chat_id u) with
    | None => Ok NoGameHere
    | Some game =>
        if finished game then Ok NoActiveGameFinished
        else
          let? names := names_of game (players game) in
          let secrets_set := count_secrets_set game in
          Ok (StatusLine names secrets_set (turn_index game))
    end.

(** ** A guess by a player who is alone in the game *)

(** The update is a well-formed guess, sent in a group chat, by the only
    player of the unfinished game [g], whose secret is set. *)
Definition lone_guess (u : update) (g : game) : bool :=
  negb (is_private u)
  && negb (finished g)
  && bool_decide (players g = [user_id u])
  && secret_set g (user_id u)
  && match args u with
     | [a] => valid_secret (strip a)
     | _ => false
     end.

(** ** The turn before the first guess *)

(** [turn_index] is still 0 unless two players have joined and both
    secrets are set. *)
Definition turn_untouched (g : game) : Prop :=
  turn_index g = 0
  ∨ (length (players g) = 2%nat ∧ all_secrets_set g = true).

(** ** The order of the phases *)

Definition phase_rank (p : phase) : nat :=
  match p with
  | FORMING => 0
  | AWAITING_SECRETS => 1
  | IN_PROGRESS => 2
  | FINISHED => 3
  end.

(** ** Setting up a match *)

(** A game is created in chat [k], [a] and [b] join in this order, and each
    sends a secret in a private chat. *)
Definition setup (k : Z) (a b : Z) (na nb : list Z) (sa sb : list Z)
    : list (M unit) :=
  [ newgame (Update Group k a na []);
    join (Update Group k a na []);
    join (Update Group k b nb []);
    secret (Update Private a a na [sa]);
    secret (Update Private b b nb [sb]) ].

(** * Properties *)

(** ** The sample match *)

Example valid_4567 : valid_secret (str "4567") = true.
Proof. reflexivity. Qed.
Example invalid_4560 : valid_secret (str "4560") = false.
Proof. reflexivity. Qed.
Example invalid_4467 : valid_secret (str "4467") = false.
Proof. reflexivity. Qed.
Example invalid_456 : valid_secret (str "456") = false.
Proof. reflexivity. Qed.

Example compare_1234_1243 :
  compare_guess (str "1234") (str "1243") = Ok (4%nat, 2%nat).
Proof. reflexivity. Qed.
Example compare_5678_5679 :
  compare_guess (str "5678") (str "5679") = Ok (3%nat, 3%nat).
Proof. reflexivity. Qed.
Example compare_short_secret :
  compare_guess (str "567") (str "5679") = Raise IndexError.
Proof. reflexivity. Qed.

Example started_table_eq : started_table = [(100, started_game)].
Proof. vm_compute. reflexivity. Qed.
Example wf_started : wf_game started_game = true.
Proof. vm_compute. reflexivity. Qed.


(** ** Sets of characters *)

Lemma size_list_to_set_le (l : list Z) :
  (size (list_to_set l : gset Z) ≤ length l)%nat.
Proof.
  induction l as [|x l IH]; [done|].
  rewrite list_to_set_cons, size_union_alt, size_singleton. cbn.
  assert (size (list_to_set l ∖ {[x]} : gset Z) ≤ size (list_to_set l : gset Z))%nat
    by (apply subseteq_size; set_solver).
  lia.
Qed.

Lemma size_list_to_set_NoDup (l : list Z) :
  size (list_to_set l : gset Z) = length l ↔ NoDup l.
Proof.
  split; [|apply size_list_to_set].
  induction l as [|x l IH]; intros Hsz; [constructor|].
  rewrite list_to_set_cons in Hsz. cbn in Hsz.
  destruct (decide (x ∈ l)) as [Hin|Hin].
  - assert ({[x]} ∪ list_to_set l = (list_to_set l : gset Z)) as Heq
      by set_solver.
    rewrite Heq in Hsz. pose proof (size_list_to_set_le l). lia.
  - rewrite size_union, size_singleton in Hsz by set_solver.
    apply NoDup_cons. split; [done|]. apply IH. lia.
Qed.

(** ** [valid_secret] *)

Lemma isdigit_iff (s : list Z) :
  isdigit s = true ↔ s ≠ [] ∧ Forall (λ c, char_isdigit c = true) s.
Proof.
  assert (forallb char_isdigit s = true ↔ Forall (λ c, char_isdigit c = true) s)
    as Hall.
  { rewrite forallb_forall, Forall_forall.
    split; intros H x Hx; apply H; by apply list_elem_of_In. }
  destruct s as [|c s']; [naive_solver|].
  unfold isdigit. rewrite Hall. naive_solver.
Qed.

(** What [valid_secret] checks, spelled out. *)
Lemma valid_secret_iff (s : list Z) :
  valid_secret s = true ↔
  length s = 4%nat ∧ Forall (λ c, char_isdigit c = true) s
  ∧ (ch0 ∉ s) ∧ NoDup s.
Proof.
  unfold valid_secret.
  destruct (isdigit s) eqn:Hdig; cbn.
  - apply isdigit_iff in Hdig as [_ Hdig].
    destruct (Nat.eqb_spec (length s) 4) as [Hlen|Hlen]; cbn; [|naive_solver].
    case_bool_decide as H0; [naive_solver|].
    destruct (Nat.eqb_spec (size (list_to_set s : gset Z)) 4) as [Hsz|Hsz]; cbn.
    + split; [intros _|done]. repeat split; try done.
      apply size_list_to_set_NoDup. congruence.
    + split; [done|]. intros (_ & _ & _ & Hnd).
      apply size_list_to_set_NoDup in Hnd. congruence.
  - split; [done|]. intros (Hlen & Hall & _ & _).
    assert (isdigit s = true) as Hd; [|congruence].
    apply isdigit_iff. split; [|done]. by destruct s.
Qed.

Lemma valid_secret_length (s : list Z) :
  valid_secret s = true → length s = 4%nat.
Proof. intros H. by apply valid_secret_iff in H as (? & _). Qed.

Lemma in_ranges_below (rs : list (Z * Z)) (c b : Z) :
  forallb (λ r, b <=? r.1) rs = true → c < b → in_ranges rs c = false.
Proof.
  intros Hrs Hc. induction rs as [|r rs IH]; [done|].
  cbn in Hrs. apply andb_true_iff in Hrs as [Hr Hrs]. apply Z.leb_le in Hr.
  unfold in_ranges in *. cbn. rewrite IH by done.
  rewrite orb_false_r. apply andb_false_iff. left. apply Z.leb_gt. lia.
Qed.

(** Among ASCII characters the digits are ['0'] to ['9']. *)
Lemma char_isdigit_ascii (c : Z) :
  0 ≤ c < 128 → char_isdigit c = true ↔ ch0 ≤ c ≤ ch9.
Proof.
  intros Hc.
  change (char_isdigit c)
    with ((48 <=? c) && (c <=? 57) || in_ranges (tail digit_ranges) c).
  rewrite (in_ranges_below _ c 128); [|by vm_compute|lia].
  rewrite orb_false_r, andb_true_iff, !Z.leb_le. done.
Qed.

(** On ASCII input [valid_secret] accepts exactly the strings of four
    pairwise distinct characters from ['1'] to ['9']. *)
Lemma valid_secret_ascii (s : list Z) :
  Forall (λ c, 0 ≤ c < 128) s →
  valid_secret s = true ↔
  length s = 4%nat ∧ Forall (λ c, ch1 ≤ c ≤ ch9) s ∧ NoDup s.
Proof.
  intros Hascii. rewrite valid_secret_iff. split.
  - intros (Hlen & Hdig & H0 & Hnd). repeat split; try done.
    apply Forall_forall. intros c Hc.
    rewrite Forall_forall in Hascii, Hdig.
    pose proof (proj1 (char_isdigit_ascii c (Hascii c Hc)) (Hdig c Hc)).
    assert (c ≠ ch0) by (intros ->; done).
    unfold ch0, ch1, ch9 in *. lia.
  - intros (Hlen & Hdig & Hnd). repeat split; try done.
    + apply Forall_forall. intros c Hc.
      rewrite Forall_forall in Hascii, Hdig.
      apply char_isdigit_ascii; [by apply Hascii|].
      specialize (Hdig c Hc). unfold ch0, ch1, ch9 in *. lia.
    + intros Hin. rewrite Forall_forall in Hdig. specialize (Hdig _ Hin).
      unfold ch0, ch1 in *. lia.
Qed.

(** The strings the specification calls secrets are accepted. *)
Lemma valid_secret_complete (s : list Z) :
  length s = 4%nat → Forall (λ c, ch1 ≤ c ≤ ch9) s → NoDup s →
  valid_secret s = true.
Proof.
  intros Hlen Hdig Hnd. apply valid_secret_ascii; [|done].
  eapply Forall_impl; [exact Hdig|]. unfold ch1, ch9. cbn. lia.
Qed.

(** C1 (the code departs from the claim): [valid_secret] returns [True] on
    the four-character string U+0660 U+0661 U+0662 U+0663, none of whose
    characters is one of ['1'] to ['9']; [str.isdigit] holds for every
    Unicode digit and only the ASCII ['0'] is excluded afterwards. *)
Theorem valid_secret_accepts_non_ascii_digits :
  valid_secret arabic_0123 = true ∧
  length arabic_0123 = 4%nat ∧
  Forall (λ c, ¬ (ch1 ≤ c ≤ ch9)) arabic_0123.
Proof.
  split; [by vm_compute|]. split; [done|].
  unfold arabic_0123, ch1, ch9. repeat constructor; lia.
Qed.

(** ** [compare_guess] *)

Lemma length_filter_cons {A} (P : A → Prop) `{!∀ x, Decision (P x)} x l :
  length (filter P (x :: l))
  = ((if decide (P x) then 1 else 0) + length (filter P l))%nat.
Proof. rewrite filter_cons. by case_decide. Qed.

(** The count made by [count_positions], in closed form. *)
Lemma count_positions_Ok (secret guess : list Z) (idx : list nat) :
  Forall (λ i, (i < length guess)%nat ∧ (i < length secret)%nat) idx →
  count_positions secret guess idx
  = Ok (length (filter (λ i, guess !! i = secret !! i) idx)).
Proof.
  induction 1 as [|i idx [Hg Hs] _ IH]; [done|].
  apply lookup_lt_is_Some in Hg as [g Hg], Hs as [s Hs].
  cbn [count_positions]. unfold same_at, getitem.
  rewrite Hg, Hs, IH. cbn [res_bind]. rewrite length_filter_cons.
  rewrite Hg, Hs. case_bool_decide; case_decide; naive_solver.
Qed.

Lemma matching_digits_Ok (secret guess : list Z) (idx : list nat) :
  Forall (λ i, (i < length guess)%nat ∧ (i < length secret)%nat) idx →
  ∃ ds, matching_digits secret guess idx = Ok ds.
Proof.
  induction 1 as [|i idx [Hg Hs] _ [ds IH]]; [by eexists|].
  apply lookup_lt_is_Some in Hg as [g Hg], Hs as [s Hs].
  cbn [matching_digits]. unfold getitem. rewrite Hg, Hs, IH. cbn. eauto.
Qed.

Lemma range4_in_bounds (secret guess : list Z) :
  length secret = 4%nat → length guess = 4%nat →
  Forall (λ i, (i < length guess)%nat ∧ (i < length secret)%nat) range4.
Proof. intros -> ->. unfold range4. repeat constructor; lia. Qed.

(** A position where the guess agrees with the secret holds a character
    of the secret. *)
Lemma position_is_value (secret guess : list Z) (i : nat) (g : Z) :
  guess !! i = Some g →
  ((if decide (guess !! i = secret !! i) then 1 else 0)
   ≤ (if decide (g ∈ secret) then 1 else 0))%nat.
Proof.
  intros Hg. repeat case_decide; try lia.
  exfalso. eapply H0, list_elem_of_lookup_2. by rewrite <- H, Hg.
Qed.

(** On two four-character strings [compare_guess] does not raise, and it
    counts at most as many positions as values. *)
Lemma compare_guess_Ok (secret guess : list Z) :
  length secret = 4%nat → length guess = 4%nat →
  ∃ values positions,
    compare_guess secret guess = Ok (values, positions)
    ∧ (positions ≤ values)%nat.
Proof.
  intros Hs Hg. unfold compare_guess.
  rewrite count_positions_Ok by by apply range4_in_bounds.
  cbn [res_bind]. eexists _, _. split; [reflexivity|].
  destruct guess as [|g0 [|g1 [|g2 [|g3 [|]]]]]; try done.
  unfold range4. rewrite !(length_filter_cons _ _ _), !filter_nil.
  cbn [length].
  pose proof (position_is_value secret [g0; g1; g2; g3] 0 g0 eq_refl).
  pose proof (position_is_value secret [g0; g1; g2; g3] 1 g1 eq_refl).
  pose proof (position_is_value secret [g0; g1; g2; g3] 2 g2 eq_refl).
  pose proof (position_is_value secret [g0; g1; g2; g3] 3 g3 eq_refl).
  lia.
Qed.

(** C9: on two four-character strings [compare_guess] returns a pair
    (values, positions) with positions at most values. *)
Theorem compare_guess_positions_le_values (secret guess : list Z) :
  length secret = 4%nat → length guess = 4%nat →
  ∃ values positions,
    compare_guess secret guess = Ok (values, positions)
    ∧ (positions ≤ values)%nat.
Proof. apply compare_guess_Ok. Qed.

Lemma compare_guess_positions_le_values_witness :
  ∃ values positions,
    compare_guess (str "1234") (str "1243") = Ok (values, positions)
    ∧ (positions ≤ values)%nat.
Proof.
  apply (compare_guess_positions_le_values (str "1234") (str "1243"));
    reflexivity.
Defined.

(** ** The [GAMES] table *)

Lemma store_get_set (G : store) (k k' : Z) (g : game) :
  store_get (store_set G k g) k'
  = if bool_decide (k = k') then Some g else store_get G k'.
Proof.
  induction G as [|[k0 g0] G IH]; cbn; [done|].
  repeat (case_bool_decide; cbn; subst); rewrite ?IH; try done.
Qed.

Lemma store_get_set_eq (G : store) (k : Z) (g : game) :
  store_get (store_set G k g) k = Some g.
Proof. by rewrite store_get_set, bool_decide_true. Qed.

Lemma store_get_set_ne (G : store) (k k' : Z) (g : game) :
  k ≠ k' → store_get (store_set G k g) k' = store_get G k'.
Proof. intros. by rewrite store_get_set, bool_decide_false. Qed.

Lemma store_set_set (G : store) (k : Z) (g g' : game) :
  store_set (store_set G k g) k g' = store_set G k g'.
Proof.
  induction G as [|[k0 g0] G IH]; cbn.
  - by rewrite bool_decide_true.
  - case_bool_decide; cbn.
    + by rewrite bool_decide_true.
    + by rewrite bool_decide_false, IH.
Qed.

Lemma store_set_same (G : store) (k : Z) (g : game) :
  store_get G k = Some g → store_set G k g = G.
Proof.
  induction G as [|[k0 g0] G IH]; cbn; [done|].
  case_bool_decide; [naive_solver|]. intros H'. by rewrite IH.
Qed.

Lemma store_get_None (G : store) (k : Z) :
  store_get G k = None ↔ k ∉ G.*1.
Proof.
  induction G as [|[k0 g0] G IH]; cbn; [set_solver|].
  case_bool_decide; set_solver.
Qed.

Lemma store_get_Some (G : store) (k : Z) (g : game) :
  NoDup G.*1 → store_get G k = Some g ↔ (k, g) ∈ G.
Proof.
  induction G as [|[k0 g0] G IH]; cbn; [set_solver|].
  intros [Hk0 Hnd]%NoDup_cons. specialize (IH Hnd).
  case_bool_decide; subst.
  - split; [intros [= ->]; set_solver|].
    intros [[= ->]|Hin]%elem_of_cons; [done|].
    exfalso. apply Hk0. apply list_elem_of_fmap. by exists (k, g).
  - rewrite IH. set_solver.
Qed.

Lemma store_set_keys (G : store) (k : Z) (g : game) :
  (store_set G k g).*1 = if bool_decide (k ∈ G.*1) then G.*1 else G.*1 ++ [k].
Proof.
  induction G as [|[k0 g0] G IH]; cbn; [done|].
  destruct (decide (k0 = k)) as [->|Hne].
  - rewrite bool_decide_true by done. cbn.
    by rewrite bool_decide_true by set_solver.
  - rewrite bool_decide_false by done. cbn. rewrite IH.
    destruct (decide (k ∈ G.*1)).
    + by rewrite !bool_decide_true by set_solver.
    + by rewrite !bool_decide_false by set_solver.
Qed.

Lemma store_set_NoDup (G : store) (k : Z) (g : game) :
  NoDup G.*1 → NoDup (store_set G k g).*1.
Proof.
  intros Hnd. rewrite store_set_keys. case_bool_decide; [done|].
  apply NoDup_app. split_and!; [done|set_solver|apply NoDup_singleton].
Qed.

Lemma store_pop_keys (G : store) (k : Z) :
  NoDup G.*1 →
  NoDup (store_pop G k).*1 ∧ (k ∉ (store_pop G k).*1)
  ∧ (store_pop G k).*1 ⊆ G.*1.
Proof.
  induction G as [|[k0 g0] G IH]; cbn; [set_solver by eauto using NoDup_nil_2|].
  intros [Hk0 Hnd]%NoDup_cons. destruct (IH Hnd) as (IH1 & IH2 & IH3).
  case_bool_decide; subst; cbn.
  - split_and!; [done|done|set_solver].
  - split_and!; [|set_solver|set_solver].
    apply NoDup_cons. split; [set_solver|done].
Qed.

Lemma store_get_pop (G : store) (k k' : Z) :
  NoDup G.*1 →
  store_get (store_pop G k) k'
  = if bool_decide (k = k') then None else store_get G k'.
Proof.
  intros Hnd. case_bool_decide; subst.
  - apply store_get_None. by apply store_pop_keys.
  - clear Hnd. induction G as [|[k0 g0] G IH]; cbn; [done|].
    repeat (case_bool_decide; cbn; subst); try done.
Qed.

(** ** Running handlers *)

Ltac msimpl :=
  unfold outcome, games_after, sent_by in *; unfold run in *;
  unfold reply_text, send_message, get_chat in *;
  unfold bind, ret, eval, get_games, put_games, set_game, emit in *;
  cbv beta in *; cbn [fst snd GAMES sent app negb] in *.

(** What a handler can do to the table. *)

Lemma newgame_effect (u : update) (G : store) :
  games_after (newgame u) G = G
  ∨ has_active G (chat_id u) = false
    ∧ games_after (newgame u) G = store_set G (chat_id u) new_game.
Proof.
  unfold newgame. destruct (is_private u); msimpl; [by left|].
  destruct (has_active G (chat_id u)); msimpl; [by left|by right].
Qed.

Lemma cancel_effect (u : update) (G : store) :
  games_after (cancel u) G = G
  ∨ games_after (cancel u) G = store_pop G (chat_id u).
Proof.
  unfold cancel. destruct (is_private u); msimpl; [by left|].
  destruct (store_get G (chat_id u)); msimpl; [by right|by left].
Qed.

Lemma join_effect (u : update) (G : store) :
  games_after (join u) G = G
  ∨ ∃ g, store_get G (chat_id u) = Some g
         ∧ finished g = false
         ∧ (user_id u ∉ players g)
         ∧ (length (players g) < 2)%nat
         ∧ games_after (join u) G
           = store_set G (chat_id u)
               (Game (players g ++ [user_id u])
                     (<[user_id u := first_name u]> (player_names g))
                     (<[user_id u := None]> (secrets g))
                     (turn_index g) (finished g)).
Proof.
  unfold join. destruct (is_private u); msimpl; [by left|].
  destruct (store_get G (chat_id u)) as [g|] eqn:Hg; msimpl; [|by left].
  destruct (finished g) eqn:Hfin; msimpl; [by left|].
  case_bool_decide; msimpl; [by left|].
  destruct (Nat.leb_spec 2 (length (players g))); msimpl; [by left|].
  right. exists g. split_and!; try done.
  rewrite !store_set_set. unfold set_secrets, set_player_names, set_players.
  cbn. rewrite Hfin.
  repeat (case_match; msimpl; try done).
Qed.

Lemma secret_effect (u : update) (G : store) :
  games_after (secret u) G = G
  ∨ ∃ a gid g rest,
      args u = [a]
      ∧ valid_secret (strip a) = true
      ∧ filter (λ e, awaits_secret (user_id u) e.2 = true) G = (gid, g) :: rest
      ∧ games_after (secret u) G
        = store_set G gid
            (set_secrets g (<[user_id u := Some (strip a)]> (secrets g))).
Proof.
  unfold secret. destruct (is_private u); msimpl; [|by left].
  destruct (args u) as [|a [|]]; msimpl; try by left.
  destruct (valid_secret (strip a)) eqn:Hvalid; msimpl; [|by left].
  destruct (filter _ G) as [|[gid g] rest] eqn:Hscan; msimpl; [by left|].
  right. exists a, gid, g, rest. split_and!; try done.
  repeat (case_match; msimpl; try done).
Qed.

Lemma guess_effect (u : update) (G : store) :
  games_after (guess u) G = G
  ∨ ∃ g, store_get G (chat_id u) = Some g
         ∧ finished g = false
         ∧ (games_after (guess u) G
            = store_set G (chat_id u) (set_finished g true)
            ∨ games_after (guess u) G
              = store_set G (chat_id u)
                  (set_turn_index g (1 - turn_index g))).
Proof.
  unfold guess. destruct (is_private u); msimpl; [by left|].
  destruct (store_get G (chat_id u)) as [g|] eqn:Hg; msimpl; [|by left].
  destruct (finished g) eqn:Hfin; msimpl; [by left|].
  case_bool_decide; msimpl; [|by left].
  destruct (args u) as [|a [|]]; msimpl; try by left.
  destruct (valid_secret (strip a)); msimpl; [|by left].
  destruct (all_secrets_set g); msimpl; [|by left].
  destruct (getitem_int (players g) (turn_index g)) as [cur|];
    msimpl; [|by left].
  case_bool_decide; msimpl; [|by repeat (case_match; msimpl; try by left)].
  destruct (getitem _ 0) as [opp|]; msimpl; [|by left].
  destruct (dict_item (player_names g) opp) as [opp_name|]; msimpl; [|by left].
  destruct (dict_item (secrets g) opp) as [opp_secret|]; msimpl; [|by left].
  destruct (compare_with opp_secret (strip a)) as [[[v p] ds]|];
    msimpl; [|by left].
  right. exists g. split_and!; try done.
  destruct (p =? 4)%nat; msimpl; [by left|].
  right. repeat (case_match; msimpl; try done).
Qed.

(** ** Games in progress *)

(** A well-formed game in progress, taken apart. *)
Lemma in_progress_inv (g : game) :
  wf_game g = true → phase_of g = IN_PROGRESS →
  ∃ a b na nb sa sb,
    players g = [a; b] ∧ a ≠ b
    ∧ player_names g !! a = Some na ∧ player_names g !! b = Some nb
    ∧ secrets g !! a = Some (Some sa) ∧ secrets g !! b = Some (Some sb)
    ∧ valid_secret sa = true ∧ valid_secret sb = true
    ∧ (turn_index g = 0 ∨ turn_index g = 1)
    ∧ finished g = false ∧ all_secrets_set g = true.
Proof.
  unfold wf_game, phase_of, all_secrets_set.
  destruct g as [ps names secs t fin]; cbn.
  rewrite !andb_true_iff, orb_true_iff, !bool_decide_eq_true.
  intros ((((Hnd & Hlen) & Hnames) & Hsecs) & Ht) Hphase.
  destruct fin; [done|].
  destruct ps as [|a [|b [|c ps]]]; try done.
  apply NoDup_cons in Hnd as [Hab _].
  unfold secret_ok, secret_set in *. cbn in *.
  rewrite !andb_true_iff in Hnames, Hsecs.
  destruct Hnames as (Hna & Hnb & _).
  apply bool_decide_eq_true in Hna as [na Hna], Hnb as [nb Hnb].
  destruct Hsecs as (Hsa & Hsb & _).
  destruct (secs !! a) as [[[|? ?]|]|] eqn:Ha; try done;
    destruct (secs !! b) as [[[|? ?]|]|] eqn:Hb; try done.
  eexists a, b, na, nb, _, _. split_and!; try done. set_solver.
Qed.

(** ** Finished sessions *)

Lemma guess_finished (G : store) (u : update) (g : game) :
  is_private u = false → store_get G (chat_id u) = Some g →
  finished g = true →
  run (guess u) G = (Ok tt, World G [Reply NoActiveGameInGroup]).
Proof. intros Hp Hg Hfin. unfold guess. rewrite Hp. msimpl. by rewrite Hg, Hfin. Qed.

Lemma join_finished (G : store) (u : update) (g : game) :
  is_private u = false → store_get G (chat_id u) = Some g →
  finished g = true →
  run (join u) G = (Ok tt, World G [Reply NoActiveGameHere]).
Proof. intros Hp Hg Hfin. unfold join. rewrite Hp. msimpl. by rewrite Hg, Hfin. Qed.

(** The scan of [secret] only ever selects unfinished games. *)
Lemma scan_head (uid : Z) (G : store) (gid : Z) (g : game) rest :
  filter (λ e, awaits_secret uid e.2 = true) G = (gid, g) :: rest →
  (gid, g) ∈ G ∧ awaits_secret uid g = true.
Proof.
  intros Hscan.
  assert ((gid, g) ∈ filter (λ e, awaits_secret uid e.2 = true) G) as Hin
    by (rewrite Hscan; set_solver).
  by apply list_elem_of_filter in Hin as [? ?].
Qed.

Lemma secret_keeps_finished (G : store) (u : update) (k : Z) (g : game) :
  NoDup G.*1 → store_get G k = Some g → finished g = true →
  store_get (games_after (secret u) G) k = Some g.
Proof.
  intros Hnd Hg Hfin.
  destruct (secret_effect u G) as [->|(a & gid & g' & rest & _ & _ & Hscan & ->)];
    [done|].
  apply scan_head in Hscan as [Hin Haw].
  rewrite store_get_set. case_bool_decide; [subst|done].
  apply store_get_Some in Hin; [|done].
  assert (g' = g) as -> by congruence.
  unfold awaits_secret in Haw. rewrite Hfin in Haw.
  by rewrite andb_false_r in Haw.
Qed.

Lemma secret_nothing_awaiting (G : store) (u : update) (a : list Z) :
  is_private u = true → args u = [a] → valid_secret (strip a) = true →
  Forall (λ e, awaits_secret (user_id u) e.2 = false) G →
  run (secret u) G = (Ok tt, World G [Reply NoGameAwaitingSecret]).
Proof.
  intros Hp Ha Hvalid Hnone. unfold secret. rewrite Hp, Ha. msimpl.
  rewrite Hvalid. msimpl.
  assert (filter (λ e, awaits_secret (user_id u) e.2 = true) G = []) as ->; [|done].
  clear -Hnone. induction Hnone as [|e G He _ IH]; [done|].
  rewrite filter_cons, IH. case_decide; [congruence|done].
Qed.

Lemma phase_finished (g : game) : phase_of g = FINISHED ↔ finished g = true.
Proof. unfold phase_of. repeat case_match; naive_solver. Qed.

Example finished_table_eq : finished_table = [(100, finished_game)].
Proof. vm_compute. reflexivity. Qed.

(** The refusals of [secret] that come before the scan of [GAMES]. *)
Lemma secret_not_private (G : store) (v : update) :
  is_private v = false →
  run (secret v) G = (Ok tt, World G [Reply SecretNotPrivate]).
Proof. intros Hp. unfold secret. rewrite Hp. by msimpl. Qed.

Lemma secret_usage (G : store) (v : update) :
  is_private v = true → length (args v) ≠ 1%nat →
  run (secret v) G = (Ok tt, World G [Reply SecretUsage]).
Proof.
  intros Hp Hlen. unfold secret. rewrite Hp. msimpl.
  by destruct (args v) as [|? [|]].
Qed.

Lemma secret_invalid (G : store) (v : update) (a : list Z) :
  is_private v = true → args v = [a] → valid_secret (strip a) = false →
  run (secret v) G = (Ok tt, World G [Reply InvalidSecret]).
Proof.
  intros Hp Hargs Hvalid. unfold secret. rewrite Hp, Hargs. msimpl.
  by rewrite Hvalid.
Qed.

(** C3 (as stated, refuted): Ann takes part in a finished session and sends
    the malformed secret "1230"; the bot answers "Invalid secret", not with
    the answer it gives for a finished session. *)
Lemma finished_session_invalid_secret :
  store_get finished_table 100 = Some finished_game
  ∧ phase_of finished_game = FINISHED
  ∧ user_id ann ∈ players finished_game
  ∧ sent_by (secret (with_args (in_private ann) "1230")) finished_table
    = [Reply InvalidSecret]
  ∧ sent_by (secret (with_args (in_private ann) "1230")) finished_table
    ≠ [Reply NoGameAwaitingSecret].
Proof.
  split_and!; [by vm_compute|by vm_compute| |by vm_compute|by vm_compute].
  cbn. set_solver.
Qed.

(** C3 (amended): under a finished session, [guess] and [join] sent in the
    session's group chat are answered "No active game" and leave the table
    unchanged; [secret] never touches a finished session, whoever sends it
    and whatever it carries, and a well-formed secret from a user for whom
    no unfinished game awaits a secret is answered "Could not find an active
    game" with the table unchanged. Before any game is looked up, [secret]
    sent in a group chat is answered "Send your secret privately", and in a
    private chat a wrong number of arguments is answered with the usage text
    and a malformed secret with "Invalid secret", each time with the table
    unchanged. *)
Theorem finished_session_rejects (G : store) (u : update) (g : game) :
  NoDup G.*1 → store_get G (chat_id u) = Some g → phase_of g = FINISHED →
  is_private u = false →
  run (guess u) G = (Ok tt, World G [Reply NoActiveGameInGroup])
  ∧ run (join u) G = (Ok tt, World G [Reply NoActiveGameHere])
  ∧ (∀ v, store_get (games_after (secret v) G) (chat_id u) = Some g)
  ∧ (∀ v a, is_private v = true → args v = [a] →
            valid_secret (strip a) = true →
            Forall (λ e, awaits_secret (user_id v) e.2 = false) G →
            run (secret v) G = (Ok tt, World G [Reply NoGameAwaitingSecret]))
  ∧ (∀ v, is_private v = false →
          run (secret v) G = (Ok tt, World G [Reply SecretNotPrivate]))
  ∧ (∀ v, is_private v = true → length (args v) ≠ 1%nat →
          run (secret v) G = (Ok tt, World G [Reply SecretUsage]))
  ∧ (∀ v a, is_private v = true → args v = [a] →
            valid_secret (strip a) = false →
            run (secret v) G = (Ok tt, World G [Reply InvalidSecret])).
Proof.
  intros Hnd Hg Hfin%phase_finished Hp. split_and!.
  - by eapply guess_finished.
  - by eapply join_finished.
  - intros v. by apply secret_keeps_finished.
  - intros v a. apply secret_nothing_awaiting.
  - intros v. apply secret_not_private.
  - intros v. apply secret_usage.
  - intros v a. apply secret_invalid.
Qed.

Lemma finished_session_rejects_witness :
  run (guess (with_args bob "1234")) finished_table
  = (Ok tt, World finished_table [Reply NoActiveGameInGroup])
  ∧ run (join eve) finished_table
    = (Ok tt, World finished_table [Reply NoActiveGameHere])
  ∧ store_get
      (games_after (secret (with_args (in_private ann) "9876")) finished_table)
      100
    = Some finished_game
  ∧ run (secret (with_args (in_private ann) "9876")) finished_table
    = (Ok tt, World finished_table [Reply NoGameAwaitingSecret])
  ∧ run (secret (with_args ann "9876")) finished_table
    = (Ok tt, World finished_table [Reply SecretNotPrivate])
  ∧ run (secret (in_private ann)) finished_table
    = (Ok tt, World finished_table [Reply SecretUsage])
  ∧ run (secret (with_args (in_private ann) "1230")) finished_table
    = (Ok tt, World finished_table [Reply InvalidSecret]).
Proof.
  assert (NoDup finished_table.*1) as Hnd
    by (rewrite finished_table_eq; apply NoDup_singleton).
  destruct (finished_session_rejects finished_table (with_args bob "1234")
              finished_game Hnd eq_refl eq_refl eq_refl)
    as (Hguess & _ & Hkeep & Hnone & Hgroup & Husage & Hinvalid).
  destruct (finished_session_rejects finished_table eve
              finished_game Hnd eq_refl eq_refl eq_refl)
    as (_ & Hjoin & _).
  split_and!; [exact Hguess|exact Hjoin|apply Hkeep| | | |].
  - apply (Hnone _ (str "9876")); [reflexivity..|].
    rewrite finished_table_eq. repeat constructor.
  - apply Hgroup. reflexivity.
  - apply Husage; [reflexivity|]. cbn. lia.
  - apply (Hinvalid _ (str "1230")); reflexivity.
Defined.

(** ** Creating and cancelling games *)

Lemma newgame_active (G : store) (u : update) :
  is_private u = false → has_active G (chat_id u) = true →
  run (newgame u) G = (Ok tt, World G [Reply GameAlreadyActive]).
Proof. intros Hp Hact. unfold newgame. rewrite Hp. msimpl. by rewrite Hact. Qed.

Lemma newgame_fresh (G : store) (u : update) :
  is_private u = false → has_active G (chat_id u) = false →
  run (newgame u) G
  = (Ok tt, World (store_set G (chat_id u) new_game) [Reply GameCreated]).
Proof. intros Hp Hact. unfold newgame. rewrite Hp. msimpl. by rewrite Hact. Qed.

Lemma cancel_removes (G : store) (c : update) :
  NoDup G.*1 → is_private c = false →
  store_get (games_after (cancel c) G) (chat_id c) = None.
Proof.
  intros Hnd Hp. unfold cancel. rewrite Hp. msimpl.
  destruct (store_get G (chat_id c)) eqn:Hg; msimpl; [|done].
  by rewrite store_get_pop, bool_decide_true.
Qed.

(** C6: in a group chat, [newgame] is refused with "A game is already
    active" and changes nothing while the chat holds an unfinished game;
    after [cancel] in that chat, and likewise once the game stored there is
    finished, [newgame] succeeds and stores a fresh game, which is in the
    forming phase. *)
Theorem newgame_one_active_game_per_chat (G : store) (u : update) :
  NoDup G.*1 → is_private u = false →
  (∀ g, store_get G (chat_id u) = Some g → phase_of g ≠ FINISHED →
        run (newgame u) G = (Ok tt, World G [Reply GameAlreadyActive]))
  ∧ (∀ c, is_private c = false → chat_id c = chat_id u →
          let G' := games_after (cancel c) G in
          run (newgame u) G'
          = (Ok tt, World (store_set G' (chat_id u) new_game)
                      [Reply GameCreated]))
  ∧ (∀ g, store_get G (chat_id u) = Some g → phase_of g = FINISHED →
          run (newgame u) G
          = (Ok tt, World (store_set G (chat_id u) new_game)
                      [Reply GameCreated]))
  ∧ (∀ G', store_get (store_set G' (chat_id u) new_game) (chat_id u)
           = Some new_game)
  ∧ phase_of new_game = FORMING.
Proof.
  intros Hnd Hp. split_and!.
  - intros g Hg Hph. apply newgame_active; [done|].
    unfold has_active. rewrite Hg.
    destruct (finished g) eqn:Hfin; [|done].
    by apply phase_finished in Hfin.
  - intros c Hc Hk G'. apply newgame_fresh; [done|].
    unfold has_active, G'. by rewrite <- Hk, cancel_removes.
  - intros g Hg Hfin%phase_finished. apply newgame_fresh; [done|].
    unfold has_active. by rewrite Hg, Hfin.
  - intros G'. apply store_get_set_eq.
  - done.
Qed.

Lemma newgame_one_active_game_per_chat_witness :
  run (newgame bob) started_table
  = (Ok tt, World started_table [Reply GameAlreadyActive])
  ∧ run (newgame bob) (games_after (cancel ann) started_table)
    = (Ok tt, World [(100, new_game)] [Reply GameCreated])
  ∧ run (newgame bob) finished_table
    = (Ok tt, World [(100, new_game)] [Reply GameCreated]).
Proof.
  assert (NoDup started_table.*1) as Hnd1
    by (rewrite started_table_eq; apply NoDup_singleton).
  assert (NoDup finished_table.*1) as Hnd2
    by (rewrite finished_table_eq; apply NoDup_singleton).
  destruct (newgame_one_active_game_per_chat started_table bob Hnd1 eq_refl)
    as (Hact & Hcancel & _).
  destruct (newgame_one_active_game_per_chat finished_table bob Hnd2 eq_refl)
    as (_ & _ & Hfin & _).
  split_and!.
  - apply (Hact started_game); [reflexivity|discriminate].
  - apply (Hcancel ann); reflexivity.
  - apply (Hfin finished_game); reflexivity.
Defined.

(** ** Guesses that are turned down *)

Lemma guess_not_a_player (G : store) (u : update) (g : game) :
  store_get G (chat_id u) = Some g → is_private u = false →
  finished g = false → user_id u ∉ players g →
  run (guess u) G = (Ok tt, World G [Reply NotAPlayer]).
Proof.
  intros Hg Hp Hfin Hin. unfold guess. rewrite Hp. msimpl.
  rewrite Hg, Hfin. by rewrite bool_decide_false.
Qed.

Lemma guess_usage (G : store) (u : update) (g : game) :
  store_get G (chat_id u) = Some g → is_private u = false →
  finished g = false → user_id u ∈ players g → length (args u) ≠ 1%nat →
  run (guess u) G = (Ok tt, World G [Reply GuessUsage]).
Proof.
  intros Hg Hp Hfin Hin Hargs. unfold guess. rewrite Hp. msimpl.
  rewrite Hg, Hfin. rewrite bool_decide_true by done. msimpl.
  by destruct (args u) as [|? [|]].
Qed.

Lemma guess_invalid (G : store) (u : update) (g : game) (a : list Z) :
  store_get G (chat_id u) = Some g → is_private u = false →
  finished g = false → user_id u ∈ players g →
  args u = [a] → valid_secret (strip a) = false →
  run (guess u) G = (Ok tt, World G [Reply InvalidGuess]).
Proof.
  intros Hg Hp Hfin Hin Hargs Hvalid. unfold guess. rewrite Hp. msimpl.
  rewrite Hg, Hfin. rewrite bool_decide_true by done. msimpl.
  by rewrite Hargs, Hvalid.
Qed.

Example awaiting_table_eq : awaiting_table = [(100, awaiting_game)].
Proof. vm_compute. reflexivity. Qed.

(** C5 (as stated, refuted): in a session still waiting for both secrets, a
    guess by an outsider is answered "You are not a player", and a malformed
    guess by a player is answered "Invalid guess"; neither gets the answer
    "Waiting for both players". *)
Lemma guess_before_secrets_other_replies :
  store_get awaiting_table 100 = Some awaiting_game
  ∧ phase_of awaiting_game = AWAITING_SECRETS
  ∧ sent_by (guess (with_args eve "1234")) awaiting_table = [Reply NotAPlayer]
  ∧ sent_by (guess (with_args ann "1230")) awaiting_table = [Reply InvalidGuess]
  ∧ sent_by (guess (with_args eve "1234")) awaiting_table
    ≠ [Reply WaitingForSecrets]
  ∧ sent_by (guess (with_args ann "1230")) awaiting_table
    ≠ [Reply WaitingForSecrets].
Proof. split_and!; by vm_compute. Qed.

(** C5 (amended): while a game is unfinished and some enrolled player has no
    secret yet, a well-formed guess sent by a player in the game's group chat
    is answered "Waiting for both players to privately set their secrets"
    and the table is unchanged. *)
Theorem guess_before_secrets (G : store) (u : update) (g : game) (a : list Z) :
  store_get G (chat_id u) = Some g → is_private u = false →
  phase_of g ≠ FINISHED → all_secrets_set g = false →
  user_id u ∈ players g → args u = [a] → valid_secret (strip a) = true →
  phase_of g ≠ IN_PROGRESS
  ∧ run (guess u) G = (Ok tt, World G [Reply WaitingForSecrets]).
Proof.
  intros Hg Hp Hph Hset Hin Hargs Hvalid.
  assert (finished g = false) as Hfin.
  { destruct (finished g) eqn:Hfin; [|done]. by apply phase_finished in Hfin. }
  split.
  - unfold phase_of. rewrite Hfin, Hset. by case_match.
  - unfold guess. rewrite Hp. msimpl.
    rewrite Hg, Hfin. rewrite bool_decide_true by done. msimpl.
    by rewrite Hargs, Hvalid, Hset.
Qed.

Lemma guess_before_secrets_witness :
  phase_of awaiting_game ≠ IN_PROGRESS
  ∧ run (guess (with_args ann "5678")) awaiting_table
    = (Ok tt, World awaiting_table [Reply WaitingForSecrets]).
Proof.
  apply (guess_before_secrets awaiting_table (with_args ann "5678")
           awaiting_game (str "5678")).
  - reflexivity.
  - reflexivity.
  - discriminate.
  - reflexivity.
  - cbn. set_solver.
  - reflexivity.
  - reflexivity.
Defined.

(** A player who is alone in a game and has sent a secret passes the check
    that all secrets are set; looking for the opponent then raises. *)
Lemma guess_single_player_raises :
  phase_of lonely_game = FORMING
  ∧ lonely_table = [(100, lonely_game)]
  ∧ run (guess (with_args ann "5678")) lonely_table
    = (Raise IndexError, World lonely_table []).
Proof. split_and!; by vm_compute. Qed.

(** ** Turn order *)

Lemma seat_of_two (g : game) (a b uid : Z) (i : nat) :
  players g = [a; b] → seat_of g uid = Some i →
  i = 0%nat ∧ uid = a ∨ i = 1%nat ∧ uid = b ∧ a ≠ uid.
Proof.
  unfold seat_of. intros ->. cbn.
  repeat case_decide; cbn; naive_solver.
Qed.

(** C4 (as stated, refuted): it is Ann's turn and Bob sends the malformed
    guess "0000"; the answer is "Invalid guess", not "It's not your turn". *)
Lemma guess_out_of_turn_invalid_code :
  store_get started_table 100 = Some started_game
  ∧ phase_of started_game = IN_PROGRESS
  ∧ seat_of started_game (user_id bob) = Some 1%nat
  ∧ turn_index started_game = 0
  ∧ sent_by (guess (with_args bob "0000")) started_table = [Reply InvalidGuess]
  ∧ ∀ cur_name, sent_by (guess (with_args bob "0000")) started_table
                ≠ [Reply (NotYourTurn cur_name)].
Proof. split_and!; by vm_compute. Qed.

(** C4 (amended): in a game in progress, whatever a player whose seat
    differs from [turn_index] sends as a guess leaves the table unchanged,
    and when the guess is well-formed (one argument accepted by
    [valid_secret]) the answer is "It's not your turn", naming the player
    whose turn it is. *)
Theorem guess_out_of_turn (G : store) (u : update) (g : game) (i : nat) :
  store_get G (chat_id u) = Some g → is_private u = false →
  wf_game g = true → phase_of g = IN_PROGRESS →
  seat_of g (user_id u) = Some i → Z.of_nat i ≠ turn_index g →
  outcome (guess u) G = Ok tt
  ∧ games_after (guess u) G = G
  ∧ ∀ a, args u = [a] → valid_secret (strip a) = true →
      ∃ cur cur_name,
        getitem_int (players g) (turn_index g) = Ok cur
        ∧ player_names g !! cur = Some cur_name
        ∧ sent_by (guess u) G = [Reply (NotYourTurn cur_name)].
Proof.
  intros Hg Hp Hwf Hph Hseat Hturn.
  destruct (in_progress_inv g Hwf Hph)
    as (a & b & na & nb & sa & sb & Hps & Hab & Hna & Hnb & _ & _ & _ & _
        & Ht & Hfin & Hset).
  assert (user_id u ∈ players g) as Hin.
  { rewrite Hps. destruct (seat_of_two g a b _ i Hps Hseat); set_solver. }
  assert (∃ cur cur_name,
            getitem_int (players g) (turn_index g) = Ok cur
            ∧ player_names g !! cur = Some cur_name
            ∧ user_id u ≠ cur) as (cur & cur_name & Hcur & Hname & Hne).
  { rewrite Hps.
    destruct (seat_of_two g a b _ i Hps Hseat) as [[-> Hu]|(-> & Hu & Hau)];
      destruct Ht as [Ht|Ht]; rewrite Ht in *; try done.
    - exists b, nb. split_and!; [done|done|congruence].
    - exists a, na. split_and!; [done|done|congruence]. }
  unfold outcome, games_after, sent_by.
  destruct (args u) as [|a' [|]] eqn:Hargs.
  - rewrite (guess_usage G u g) by (rewrite ?Hargs; done).
    split_and!; done.
  - destruct (valid_secret (strip a')) eqn:Hvalid.
    + assert (run (guess u) G
              = (Ok tt, World G [Reply (NotYourTurn cur_name)])) as Hrun.
      { unfold guess. rewrite Hp. msimpl.
        rewrite Hg, Hfin. rewrite bool_decide_true by done. msimpl.
        rewrite Hargs, Hvalid, Hset. msimpl. rewrite Hcur.
        rewrite bool_decide_false by done. msimpl.
        unfold dict_item. by rewrite Hname. }
      rewrite Hrun. cbn.
      split_and!; [done..|]. intros ? [= <-] _. eauto.
    + rewrite (guess_invalid G u g a') by done.
      split_and!; [done..|]. intros ? [= <-]. congruence.
  - rewrite (guess_usage G u g) by (rewrite ?Hargs; done).
    split_and!; done.
Qed.

Lemma guess_out_of_turn_witness :
  outcome (guess (with_args bob "1234")) started_table = Ok tt
  ∧ games_after (guess (with_args bob "1234")) started_table = started_table
  ∧ sent_by (guess (with_args bob "1234")) started_table
    = [Reply (NotYourTurn (str "Ann"))].
Proof.
  destruct (guess_out_of_turn started_table (with_args bob "1234")
              started_game 1 eq_refl eq_refl eq_refl eq_refl eq_refl)
    as (Hok & Hsame & Hreply); [discriminate|].
  split_and!; [exact Hok|exact Hsame|].
  destruct (Hreply (str "1234") eq_refl eq_refl)
    as (cur & cur_name & Hcur & Hname & Hsent).
  rewrite Hsent. injection Hcur as <-. cbn in Hname.
  vm_compute in Hname. by injection Hname as <-.
Defined.

(** ** Guesses that are evaluated *)

Section evaluated_guess.

(** A well-formed game in progress under the chat of the update, and a
    well-formed guess sent there by the player at [turn_index]. *)
Variables (G : store) (u : update) (g : game) (a : list Z).
Hypothesis in_table : store_get G (chat_id u) = Some g.
Hypothesis in_group : is_private u = false.
Hypothesis well_formed : wf_game g = true.
Hypothesis in_progress : phase_of g = IN_PROGRESS.
Hypothesis on_turn :
  getitem_int (players g) (turn_index g) = Ok (user_id u).
Hypothesis one_arg : args u = [a].
Hypothesis valid : valid_secret (strip a) = true.

(** The guess is compared with the opponent's secret; a full match finishes
    the game, anything else hands the turn to the opponent. *)
Lemma guess_accepted :
  ∃ opp opp_name sec v p ds,
    getitem (filter (λ pid, pid ≠ user_id u) (players g)) 0 = Ok opp
    ∧ player_names g !! opp = Some opp_name
    ∧ secrets g !! opp = Some (Some sec)
    ∧ compare_guess sec (strip a) = Ok (v, p)
    ∧ matching_digits sec (strip a) range4 = Ok ds
    ∧ getitem_int (players g) (1 - turn_index g) = Ok opp
    ∧ run (guess u) G
      = (Ok tt,
         if (p =? 4)%nat
         then World (store_set G (chat_id u) (won g))
                [Reply (GuessResult (first_name u) (strip a) v p ds);
                 Reply (Wins (first_name u) opp_name)]
         else World (store_set G (chat_id u) (passed g))
                [Reply (GuessResult (first_name u) (strip a) v p ds);
                 Reply (NextTurn opp_name)]).
Proof.
  destruct (in_progress_inv g well_formed in_progress)
    as (x & y & nx & ny & sx & sy & Hps & Hxy & Hnx & Hny & Hsx & Hsy
        & Hvx & Hvy & Ht & Hfin & Hset).
  pose proof on_turn as Hcur.
  assert (∃ opp opp_name sec,
            filter (λ pid, pid ≠ user_id u) (players g) = [opp]
            ∧ user_id u ∈ players g
            ∧ player_names g !! opp = Some opp_name
            ∧ secrets g !! opp = Some (Some sec)
            ∧ valid_secret sec = true
            ∧ getitem_int (players g) (1 - turn_index g) = Ok opp)
    as (opp & opp_name & sec & Hopp & Hin & Hname & Hsec & Hvsec & Hnext).
  { rewrite Hps in *.
    destruct Ht as [Ht|Ht]; rewrite Ht in *; cbn in Hcur;
      injection Hcur as Hcur; rewrite <- Hcur.
    - exists y, ny, sy. rewrite !filter_cons, filter_nil.
      rewrite decide_False, decide_True by congruence.
      split_and!; try done. set_solver.
    - exists x, nx, sx. rewrite !filter_cons, filter_nil.
      rewrite decide_True, decide_False by congruence.
      split_and!; try done. set_solver. }
  destruct (compare_guess_Ok sec (strip a))
    as (v & p & Hcmp & _); [by apply valid_secret_length..|].
  destruct (matching_digits_Ok sec (strip a) range4) as [ds Hds];
    [by apply range4_in_bounds; apply valid_secret_length|].
  exists opp, opp_name, sec, v, p, ds.
  split_and!; try done; [by rewrite Hopp|].
  unfold guess. rewrite in_group. msimpl.
  rewrite in_table, Hfin. rewrite bool_decide_true by done. msimpl.
  rewrite one_arg, valid, Hset. msimpl. rewrite on_turn.
  rewrite bool_decide_true by done. msimpl.
  rewrite Hopp. cbn [getitem lookup list_lookup]. unfold dict_item.
  rewrite Hname, Hsec. unfold compare_with. rewrite Hcmp, Hds.
  cbn [res_bind fst snd].
  destruct (p =? 4)%nat; msimpl; [done|].
  unfold passed in *. cbn [players turn_index player_names set_turn_index].
  by rewrite Hnext, Hname.
Qed.

(** The opponent, the opponent's secret, and what [compare_guess] counts. *)
Variables (opp : Z) (sec : list Z) (values positions : nat).
Hypothesis opponent :
  getitem (filter (λ pid, pid ≠ user_id u) (players g)) 0 = Ok opp.
Hypothesis opponent_secret : secrets g !! opp = Some (Some sec).
Hypothesis compared : compare_guess sec (strip a) = Ok (values, positions).

Lemma guess_compared :
  ∃ ds opp_name,
    player_names g !! opp = Some opp_name
    ∧ getitem_int (players g) (1 - turn_index g) = Ok opp
    ∧ run (guess u) G
      = (Ok tt,
         if (positions =? 4)%nat
         then World (store_set G (chat_id u) (won g))
                [Reply (GuessResult (first_name u) (strip a) values positions ds);
                 Reply (Wins (first_name u) opp_name)]
         else World (store_set G (chat_id u) (passed g))
                [Reply (GuessResult (first_name u) (strip a) values positions ds);
                 Reply (NextTurn opp_name)]).
Proof.
  destruct guess_accepted
    as (opp' & opp_name & sec' & v & p & ds & Hopp' & Hname & Hsec' & Hcmp'
        & Hds & Hnext & Hrun).
  assert (opp' = opp) as -> by congruence.
  assert (sec' = sec) as -> by congruence.
  assert (v = values ∧ p = positions) as [-> ->] by (split; congruence).
  by exists ds, opp_name.
Qed.

(** C8: in a well-formed game in progress, a guess by the player at
    [turn_index] that passes [valid_secret] and matches fewer than four
    positions of the opponent's secret sets [turn_index] to
    [1 - turn_index], touches no other field of the game and no other game,
    and is answered with the result followed by "Now it's ...'s turn",
    naming the player now at [turn_index]. *)
Theorem guess_miss_passes_turn :
  (positions < 4)%nat →
  ∃ ds next_name,
    getitem_int (players (passed g)) (turn_index (passed g)) = Ok opp
    ∧ player_names g !! opp = Some next_name
    ∧ run (guess u) G
      = (Ok tt,
         World (store_set G (chat_id u) (passed g))
           [Reply (GuessResult (first_name u) (strip a) values positions ds);
            Reply (NextTurn next_name)])
    ∧ passed g
      = Game (players g) (player_names g) (secrets g) (1 - turn_index g)
             (finished g)
    ∧ ∀ k, k ≠ chat_id u →
           store_get (games_after (guess u) G) k = store_get G k.
Proof.
  intros Hlt. destruct guess_compared as (ds & nm & Hname & Hnext & Hrun).
  destruct (Nat.eqb_spec positions 4) as [|_]; [lia|].
  exists ds, nm. split_and!; try done.
  intros k Hk. unfold games_after. rewrite Hrun. cbn.
  by apply store_get_set_ne.
Qed.

(** C2 (amended): in a well-formed game in progress, a well-formed guess by
    the player at [turn_index] that matches the opponent's secret in all four
    positions finishes the game, and the answers are the result followed by
    the announcement that the guessing user wins; the game dictionary gets
    no winner entry, the winner stays readable as [players[turn_index]]. *)
Theorem guess_win_finishes_session :
  positions = 4%nat →
  ∃ g' ds opp_name,
    outcome (guess u) G = Ok tt
    ∧ store_get (games_after (guess u) G) (chat_id u) = Some g'
    ∧ phase_of g' = FINISHED
    ∧ sent_by (guess u) G
      = [Reply (GuessResult (first_name u) (strip a) values 4 ds);
         Reply (Wins (first_name u) opp_name)]
    ∧ game_get g' "winner" = None
    ∧ getitem_int (players g') (turn_index g') = Ok (user_id u).
Proof.
  intros Hfour. destruct guess_compared as (ds & nm & _ & _ & Hrun).
  rewrite Hfour in Hrun. cbn [Nat.eqb] in Hrun.
  exists (won g), ds, nm. unfold outcome, games_after, sent_by.
  rewrite Hrun. cbn [fst snd GAMES sent].
  split_and!; try done. apply store_get_set_eq.
Qed.

(** C10: a winning guess replaces the game by the same dictionary with
    [finished] set: [players], [player_names], [secrets] and [turn_index]
    keep their values, [turn_index] still points at the winner, no other
    chat's game changes, and the dictionary has no winner entry. *)
Theorem guess_win_only_sets_finished :
  positions = 4%nat →
  games_after (guess u) G
  = store_set G (chat_id u)
      (Game (players g) (player_names g) (secrets g) (turn_index g) true)
  ∧ (∀ k, k ≠ chat_id u →
          store_get (games_after (guess u) G) k = store_get G k)
  ∧ (∀ g', store_get (games_after (guess u) G) (chat_id u) = Some g' →
           players g' = players g
           ∧ player_names g' = player_names g
           ∧ secrets g' = secrets g
           ∧ turn_index g' = turn_index g
           ∧ finished g' = true
           ∧ getitem_int (players g') (turn_index g') = Ok (user_id u)
           ∧ game_get g' "winner" = None).
Proof.
  intros Hfour. destruct guess_compared as (ds & nm & _ & _ & Hrun).
  rewrite Hfour in Hrun. cbn [Nat.eqb] in Hrun.
  unfold games_after. rewrite Hrun. cbn [fst snd GAMES sent].
  split_and!; [done| |].
  - intros k Hk. by apply store_get_set_ne.
  - intros g'. rewrite store_get_set_eq. intros [= <-].
    split_and!; done.
Qed.

End evaluated_guess.

Lemma guess_miss_passes_turn_witness :
  ∃ ds next_name,
    getitem_int (players (passed started_game))
                (turn_index (passed started_game)) = Ok 2
    ∧ player_names started_game !! 2 = Some next_name
    ∧ run (guess (with_args ann "5679")) started_table
      = (Ok tt,
         World (store_set started_table 100 (passed started_game))
           [Reply (GuessResult (str "Ann") (strip (str "5679")) 3 3 ds);
            Reply (NextTurn next_name)])
    ∧ passed started_game
      = Game (players started_game) (player_names started_game)
             (secrets started_game) (1 - turn_index started_game)
             (finished started_game)
    ∧ ∀ k, k ≠ 100 →
           store_get (games_after (guess (with_args ann "5679")) started_table) k
           = store_get started_table k.
Proof.
  apply (guess_miss_passes_turn started_table (with_args ann "5679")
           started_game (str "5679") eq_refl eq_refl eq_refl eq_refl eq_refl
           eq_refl eq_refl 2 (str "5678") 3 3 eq_refl eq_refl eq_refl).
  vm_compute. lia.
Defined.

(** C2 (as stated, refuted): Ann guesses Bob's secret; the game becomes
    finished, but the game dictionary holds no winner afterwards. *)
Lemma guess_win_stores_no_winner :
  ∃ g',
    store_get (games_after (guess (with_args ann "5678")) started_table) 100
    = Some g'
    ∧ phase_of g' = FINISHED
    ∧ game_get g' "winner" = None
    ∧ game_get g' "winner" ≠ Some (VInt (user_id ann)).
Proof. exists finished_game. split_and!; by vm_compute. Qed.

Lemma guess_win_finishes_session_witness :
  ∃ g' ds opp_name,
    outcome (guess (with_args ann "5678")) started_table = Ok tt
    ∧ store_get (games_after (guess (with_args ann "5678")) started_table) 100
      = Some g'
    ∧ phase_of g' = FINISHED
    ∧ sent_by (guess (with_args ann "5678")) started_table
      = [Reply (GuessResult (str "Ann") (strip (str "5678")) 4 4 ds);
         Reply (Wins (str "Ann") opp_name)]
    ∧ game_get g' "winner" = None
    ∧ getitem_int (players g') (turn_index g') = Ok 1.
Proof.
  apply (guess_win_finishes_session started_table (with_args ann "5678")
           started_game (str "5678") eq_refl eq_refl eq_refl eq_refl eq_refl
           eq_refl eq_refl 2 (str "5678") 4 4 eq_refl eq_refl eq_refl eq_refl).
Defined.

Lemma guess_win_only_sets_finished_witness :
  games_after (guess (with_args ann "5678")) started_table
  = [(100, Game [1; 2] (player_names started_game) (secrets started_game) 0 true)]
  ∧ game_get finished_game "winner" = None.
Proof.
  destruct (guess_win_only_sets_finished started_table (with_args ann "5678")
              started_game (str "5678") eq_refl eq_refl eq_refl eq_refl eq_refl
              eq_refl eq_refl 2 (str "5678") 4 4 eq_refl eq_refl eq_refl eq_refl)
    as (Hafter & _ & Hfields).
  split; [exact Hafter|].
  destruct (Hfields finished_game) as (_ & _ & _ & _ & _ & _ & Hkey).
  - rewrite Hafter. reflexivity.
  - exact Hkey.
Defined.

(** ** Committed secrets *)

Lemma awaits_secret_unset (uid : Z) (g : game) (s : list Z) :
  secrets g !! uid = Some (Some s) → awaits_secret uid g = false.
Proof.
  intros Hs. unfold awaits_secret, secret_is_none. rewrite Hs.
  by rewrite andb_false_r.
Qed.

Lemma holds_secret_step (op : session_op) (u : update)
    (G : store) (k uid : Z) (s : list Z) :
  holds_secret G k uid s →
  holds_secret (games_after (handler op u) G) k uid s.
Proof.
  intros (Hnd & g & Hg & Hin & Hs). destruct op; cbn [handler].
  - destruct (join_effect u G)
      as [->|(g0 & Hg0 & _ & Hnew & _ & ->)]; [by split; eauto|].
    split; [by apply store_set_NoDup|].
    rewrite store_get_set. case_bool_decide as Hk; [|by eauto].
    rewrite Hk in Hg0. assert (g0 = g) as -> by congruence.
    eexists. split; [done|]. cbn. split; [set_solver|].
    rewrite lookup_insert_ne; [done|]. intros Heq. by rewrite Heq in Hnew.
  - destruct (secret_effect u G)
      as [->|(a & gid & g0 & rest & _ & _ & Hscan & ->)]; [by split; eauto|].
    split; [by apply store_set_NoDup|].
    apply scan_head in Hscan as [Hin0 Haw].
    rewrite store_get_set. case_bool_decide as Hk; [|by eauto].
    subst gid. apply store_get_Some in Hin0; [|done].
    assert (g0 = g) as -> by congruence.
    eexists. split; [done|]. cbn. split; [done|].
    rewrite lookup_insert_ne; [done|]. intros Heq. rewrite Heq in Haw.
    by rewrite (awaits_secret_unset _ _ s) in Haw.
  - destruct (guess_effect u G)
      as [->|(g0 & Hg0 & _ & [->| ->])]; [by split; eauto|..];
      (split; [by apply store_set_NoDup|]);
      rewrite store_get_set; (case_bool_decide as Hk; [|by eauto]);
      rewrite Hk in Hg0; assert (g0 = g) as -> by congruence;
      eexists; (split; [done|]); by cbn.
Qed.

Lemma holds_secret_play (ops : list (session_op * update))
    (G : store) (k uid : Z) (s : list Z) :
  holds_secret G k uid s →
  holds_secret (play ((λ o, handler o.1 o.2) <$> ops) G) k uid s.
Proof.
  revert G. induction ops as [|[op u] ops IH]; intros G HG; [done|].
  cbn. apply IH. by apply holds_secret_step.
Qed.

(** What [secret] answers: one of its refusals with the table unchanged, or
    "Secret ... saved" for the first game of the scan. *)
Lemma secret_cases (u : update) (G : store) :
  (∃ m, run (secret u) G = (Ok tt, World G [Reply m])
        ∧ m ∈ [SecretNotPrivate; SecretUsage; InvalidSecret;
               NoGameAwaitingSecret])
  ∨ ∃ gid g rest tail,
      filter (λ e, awaits_secret (user_id u) e.2 = true) G = (gid, g) :: rest
      ∧ sent_by (secret u) G = Reply (SecretSaved gid) :: tail
      ∧ Forall (λ e, ∀ m, e ≠ Reply m) tail.
Proof.
  unfold secret. destruct (is_private u); msimpl;
    [|left; eexists; split; [done|set_solver]].
  destruct (args u) as [|a [|]]; msimpl;
    try (left; eexists; split; [done|set_solver]).
  destruct (valid_secret (strip a)); msimpl;
    [|left; eexists; split; [done|set_solver]].
  destruct (filter _ G) as [|[gid g] rest] eqn:Hscan; msimpl;
    [left; eexists; split; [done|set_solver]|].
  right. exists gid, g, rest.
  repeat (case_match; msimpl; simplify_eq);
    eexists; (split; [done|]); (split; [done|]);
    repeat constructor; done.
Qed.

(** C7 (amended): once the game under a chat id holds a secret for one of
    its players, it holds that same secret after any sequence of [join],
    [secret] and [guess] updates, whoever sends them; a further [secret]
    from that player is never saved into that game, and whenever no other
    game awaits that player's secret it is answered with a single refusal
    and changes nothing. *)
Theorem committed_secret_never_changes
    (G : store) (k uid : Z) (g : game) (s : list Z)
    (ops : list (session_op * update)) :
  NoDup G.*1 → store_get G k = Some g →
  uid ∈ players g → secrets g !! uid = Some (Some s) →
  let G' := play ((λ o, handler o.1 o.2) <$> ops) G in
  (∃ g', store_get G' k = Some g'
         ∧ uid ∈ players g' ∧ secrets g' !! uid = Some (Some s))
  ∧ ∀ u, user_id u = uid →
      (Reply (SecretSaved k) ∉ sent_by (secret u) G')
      ∧ (Forall (λ e, e.1 ≠ k → awaits_secret uid e.2 = false) G' →
         ∃ m, run (secret u) G' = (Ok tt, World G' [Reply m])
              ∧ m ∈ [SecretNotPrivate; SecretUsage; InvalidSecret;
                     NoGameAwaitingSecret]).
Proof.
  intros Hnd Hg Hin Hs G'.
  assert (holds_secret G' k uid s) as (Hnd' & g' & Hg' & Hin' & Hs').
  { apply holds_secret_play. split; eauto. }
  split; [by eauto|]. intros u <-.
  assert (∀ gid g0 rest,
            filter (λ e, awaits_secret (user_id u) e.2 = true) G'
            = (gid, g0) :: rest → gid ≠ k) as Hscan.
  { intros gid g0 rest [Hin0 Haw]%scan_head ->.
    apply store_get_Some in Hin0; [|done].
    assert (g0 = g') as -> by congruence.
    by rewrite (awaits_secret_unset _ _ s) in Haw. }
  destruct (secret_cases u G')
    as [(m & Hrun & Hm)|(gid & g0 & rest & tail & Hhead & Hsent & Htail)].
  - split; [|by eauto].
    unfold sent_by. rewrite Hrun. cbn. set_solver.
  - split.
    + rewrite Hsent. intros [Heq|Hin0]%elem_of_cons.
      * injection Heq as <-. by eapply Hscan.
      * rewrite Forall_forall in Htail. by eapply Htail.
    + intros Hnone. exfalso.
      apply scan_head in Hhead as [Hin0 Haw].
      rewrite Forall_forall in Hnone.
      specialize (Hnone _ Hin0). cbn in Hnone.
      destruct (decide (gid = k)) as [->|Hne].
      * apply store_get_Some in Hin0; [|done].
        assert (g0 = g') as -> by congruence.
        by rewrite (awaits_secret_unset _ _ s) in Haw.
      * rewrite Hnone in Haw; done.
Qed.

Lemma committed_secret_never_changes_witness :
  let G' :=
    play [guess (with_args ann "5679"); join eve;
          secret (with_args (in_private ann) "9876")] started_table in
  (∃ g', store_get G' 100 = Some g'
         ∧ 1 ∈ players g' ∧ secrets g' !! 1 = Some (Some (str "1234")))
  ∧ (Reply (SecretSaved 100)
     ∉ sent_by (secret (with_args (in_private ann) "9876")) G')
  ∧ ∃ m, run (secret (with_args (in_private ann) "9876")) G'
         = (Ok tt, World G' [Reply m])
         ∧ m ∈ [SecretNotPrivate; SecretUsage; InvalidSecret;
                NoGameAwaitingSecret].
Proof.
  assert (NoDup started_table.*1) as Hnd
    by (rewrite started_table_eq; apply NoDup_singleton).
  assert (1 ∈ players started_game) as Hin by (cbn; set_solver).
  destruct (committed_secret_never_changes started_table 100 1 started_game
              (str "1234")
              [(OpGuess, with_args ann "5679"); (OpJoin, eve);
               (OpSecret, with_args (in_private ann) "9876")]
              Hnd eq_refl Hin eq_refl) as [Hkept Hagain].
  intros G'. split; [exact Hkept|].
  destruct (Hagain (with_args (in_private ann) "9876") eq_refl)
    as [Hnot Hfail].
  split; [exact Hnot|]. apply Hfail.
  vm_compute. repeat constructor.
Defined.

(** ** Reachable tables are well-formed *)

Lemma wf_game_iff (g : game) :
  wf_game g = true ↔
  NoDup (players g)
  ∧ (length (players g) ≤ 2)%nat
  ∧ (∀ pid, pid ∈ players g → is_Some (player_names g !! pid))
  ∧ (∀ pid s, pid ∈ players g → secrets g !! pid = Some (Some s) →
              valid_secret s = true)
  ∧ (turn_index g = 0 ∨ turn_index g = 1).
Proof.
  unfold wf_game.
  rewrite !andb_true_iff, orb_true_iff, !bool_decide_eq_true, Nat.leb_le.
  rewrite !forallb_forall.
  split.
  - intros ((((Hnd & Hlen) & Hnames) & Hsecs) & Ht). split_and!; try done.
    + intros pid Hpid%list_elem_of_In.
      by apply (bool_decide_eq_true_1 _), Hnames.
    + intros pid s Hpid%list_elem_of_In Hs. specialize (Hsecs pid Hpid).
      unfold secret_ok in Hsecs. by rewrite Hs in Hsecs.
  - intros (Hnd & Hlen & Hnames & Hsecs & Ht). split_and!; try done.
    + intros pid Hpid%list_elem_of_In.
      by apply (bool_decide_eq_true_2 _), Hnames.
    + intros pid Hpid%list_elem_of_In. unfold secret_ok.
      destruct (secrets g !! pid) as [[s|]|] eqn:Hs; eauto.
Qed.

Lemma store_get_elem (G : store) (k : Z) (g : game) :
  store_get G k = Some g → (k, g) ∈ G.
Proof.
  induction G as [|[k0 g0] G IH]; cbn; [done|].
  case_bool_decide; [intros [= ->]; subst|]; set_solver.
Qed.

Lemma store_set_Forall (P : Z * game → Prop) (G : store) (k : Z) (g : game) :
  Forall P G → P (k, g) → Forall P (store_set G k g).
Proof.
  intros HG Hg. induction HG as [|[k0 g0] G H0 HG IH]; cbn.
  - by repeat constructor.
  - case_bool_decide; by constructor.
Qed.

Lemma store_pop_Forall (P : Z * game → Prop) (G : store) (k : Z) :
  Forall P G → Forall P (store_pop G k).
Proof.
  induction 1 as [|[k0 g0] G H0 HG IH]; cbn; [done|].
  case_bool_decide; [done|by constructor].
Qed.

Lemma store_ok_set (G : store) (k : Z) (g : game) :
  store_ok G → wf_game g = true → store_ok (store_set G k g).
Proof.
  intros [Hnd Hwf] Hg. split; [by apply store_set_NoDup|].
  by apply store_set_Forall.
Qed.

Lemma store_ok_get (G : store) (k : Z) (g : game) :
  store_ok G → store_get G k = Some g → wf_game g = true.
Proof.
  intros [_ Hwf] Hg%store_get_elem. rewrite Forall_forall in Hwf.
  by apply (Hwf (k, g)).
Qed.

Lemma wf_join (g : game) (uid : Z) (name : list Z) :
  wf_game g = true → uid ∉ players g → (length (players g) < 2)%nat →
  wf_game (Game (players g ++ [uid]) (<[uid := name]> (player_names g))
                (<[uid := None]> (secrets g)) (turn_index g) (finished g))
  = true.
Proof.
  rewrite !wf_game_iff. cbn.
  intros (Hnd & Hlen & Hnames & Hsecs & Ht) Hnew Hfree. split_and!.
  - apply NoDup_app. split_and!; [done|set_solver|apply NoDup_singleton].
  - rewrite length_app. cbn. lia.
  - intros pid Hpid. destruct (decide (pid = uid)) as [->|Hne].
    + rewrite lookup_insert_eq. by eexists.
    + rewrite lookup_insert_ne by done. apply Hnames. set_solver.
  - intros pid s Hpid. destruct (decide (pid = uid)) as [->|Hne].
    + by rewrite lookup_insert_eq.
    + rewrite lookup_insert_ne by done. apply Hsecs. set_solver.
  - done.
Qed.

Lemma wf_secret (g : game) (uid : Z) (num : list Z) :
  wf_game g = true → valid_secret num = true →
  wf_game (set_secrets g (<[uid := Some num]> (secrets g))) = true.
Proof.
  rewrite !wf_game_iff. cbn.
  intros (Hnd & Hlen & Hnames & Hsecs & Ht) Hvalid. split_and!; try done.
  intros pid s Hpid. destruct (decide (pid = uid)) as [->|Hne].
  - rewrite lookup_insert_eq. congruence.
  - rewrite lookup_insert_ne by done. by apply Hsecs.
Qed.

Lemma wf_won (g : game) : wf_game g = true → wf_game (won g) = true.
Proof. by rewrite !wf_game_iff. Qed.

Lemma wf_passed (g : game) : wf_game g = true → wf_game (passed g) = true.
Proof.
  rewrite !wf_game_iff. cbn.
  intros (Hnd & Hlen & Hnames & Hsecs & Ht). split_and!; try done. lia.
Qed.

(** Every handler keeps the table well-formed. *)
Lemma store_ok_step (c : command) (u : update) (G : store) :
  store_ok G → store_ok (games_after (dispatch c u) G).
Proof.
  intros HG. destruct c; cbn [dispatch].
  - destruct (newgame_effect u G) as [->|[_ ->]]; [done|].
    by apply store_ok_set.
  - destruct (join_effect u G)
      as [->|(g & Hg & _ & Hnew & Hfree & ->)]; [done|].
    apply store_ok_set; [done|].
    apply wf_join; [by eapply store_ok_get|done..].
  - destruct (secret_effect u G)
      as [->|(a & gid & g & rest & _ & Hvalid & Hscan & ->)]; [done|].
    apply scan_head in Hscan as [Hin _].
    apply store_ok_set; [done|]. apply wf_secret; [|done].
    destruct HG as [_ Hwf]. rewrite Forall_forall in Hwf.
    by apply (Hwf (gid, g)).
  - destruct (guess_effect u G) as [->|(g & Hg & _ & [->| ->])]; [done|..];
      (apply store_ok_set; [done|]).
    + apply wf_won. by eapply store_ok_get.
    + apply wf_passed. by eapply store_ok_get.
  - destruct HG as [Hnd Hwf].
    destruct (cancel_effect u G) as [->| ->]; [done|].
    split; [by apply store_pop_keys|by apply store_pop_Forall].
Qed.

(** Every table the bot can reach holds one game per chat id, and every
    game in it is well-formed. *)
Lemma reachable_store_ok (G : store) : reachable G → store_ok G.
Proof.
  induction 1 as [|G c u _ IH].
  - split; [apply NoDup_nil_2|constructor].
  - by apply store_ok_step.
Qed.

Lemma reachable_wf (G : store) (k : Z) (g : game) :
  reachable G → store_get G k = Some g → wf_game g = true.
Proof. intros HG%reachable_store_ok. by apply store_ok_get. Qed.

Lemma reachable_NoDup (G : store) : reachable G → NoDup G.*1.
Proof. by intros [? _]%reachable_store_ok. Qed.

(** The sample tables are reachable. *)
Lemma play_reachable (hs : list (command * update)) (G : store) :
  reachable G → reachable (play ((λ h, dispatch h.1 h.2) <$> hs) G).
Proof.
  revert G. induction hs as [|[c u] hs IH]; intros G HG; [done|].
  cbn. apply IH. by constructor.
Qed.

Lemma started_table_reachable : reachable started_table.
Proof.
  apply (play_reachable
           [(CmdNewgame, ann); (CmdJoin, ann); (CmdJoin, bob);
            (CmdSecret, with_args (in_private ann) "1234");
            (CmdSecret, with_args (in_private bob) "5678")] []).
  constructor.
Qed.

(** C7 (as stated, refuted): Ann's secret "1234" is committed in the game of
    chat 100, and she has joined a second game, in chat 200. Her next
    [secret] does not fail: it is answered "Secret for game in group 200
    saved" and stored in that game. *)
Lemma second_secret_saved_in_other_game :
  reachable rematch_table
  ∧ store_get rematch_table 100 = Some started_game
  ∧ secrets started_game !! 1 = Some (Some (str "1234"))
  ∧ run (secret (with_args (in_private ann) "9876")) rematch_table
    = (Ok tt,
       World
         (store_set rematch_table 200
            (Game [1; 2] {[ 1 := str "Ann"; 2 := str "Bob" ]}
                  {[ 1 := Some (str "9876"); 2 := None ]} 0 false))
         [Reply (SecretSaved 200)]).
Proof.
  split_and!; [|by vm_compute..].
  apply (play_reachable
           [(CmdNewgame, ann); (CmdJoin, ann); (CmdJoin, bob);
            (CmdSecret, with_args (in_private ann) "1234");
            (CmdSecret, with_args (in_private bob) "5678");
            (CmdNewgame, ann_in_200); (CmdJoin, ann_in_200);
            (CmdJoin, bob_in_200)] []).
  constructor.
Qed.

(** The phases of the sample match: waiting for secrets once both have
    joined, in progress with Ann to move once both secrets are in, finished
    after Ann's full match. *)
Example sample_phases :
  phase_of awaiting_game = AWAITING_SECRETS
  ∧ phase_of started_game = IN_PROGRESS
  ∧ turn_index started_game = 0
  ∧ phase_of finished_game = FINISHED.
Proof. by vm_compute. Qed.

(** After Ann's miss it is Bob's turn: Bob's guess is evaluated, another
    guess by Ann is answered "It's not your turn". *)
Example sample_turn_rotation :
  let G := games_after (guess (with_args ann "5679")) started_table in
  sent_by (guess (with_args ann "5678")) G = [Reply (NotYourTurn (str "Bob"))]
  ∧ sent_by (guess (with_args bob "1243")) G
    = [Reply (GuessResult (str "Bob") (str "1243") 4 2 (str "12"));
       Reply (NextTurn (str "Ann"))].
Proof. by vm_compute. Qed.

(** * Further properties of the handlers *)

(** ** More on [valid_secret] *)

(** X1: [valid_secret] accepts exactly the strings of four pairwise distinct
    characters that are Unicode digits other than the ASCII ['0']. *)
Theorem valid_secret_exact (s : list Z) :
  valid_secret s = true ↔
  length s = 4%nat
  ∧ Forall (λ c, char_isdigit c = true ∧ c ≠ ch0) s
  ∧ NoDup s.
Proof.
  rewrite valid_secret_iff. rewrite Forall_and. split.
  - intros (Hlen & Hdig & H0 & Hnd). split_and!; try done.
    apply Forall_forall. by intros c Hc ->.
  - intros (Hlen & [Hdig H0] & Hnd). split_and!; try done.
    intros Hin. rewrite Forall_forall in H0. by apply (H0 ch0).
Qed.

(** X2: on a string of ASCII characters, [valid_secret] holds exactly when
    the string has four characters, all between ['1'] and ['9'], no two
    equal. *)
Theorem valid_secret_on_ascii (s : list Z) :
  Forall (λ c, 0 ≤ c < 128) s →
  valid_secret s = true ↔
  length s = 4%nat ∧ Forall (λ c, ch1 ≤ c ≤ ch9) s ∧ NoDup s.
Proof. apply valid_secret_ascii. Qed.

Lemma valid_secret_on_ascii_witness :
  valid_secret (str "4567") = true ↔
  length (str "4567") = 4%nat
  ∧ Forall (λ c, ch1 ≤ c ≤ ch9) (str "4567") ∧ NoDup (str "4567").
Proof.
  apply (valid_secret_on_ascii (str "4567")).
  change (str "4567") with [52; 53; 54; 55]. repeat constructor; lia.
Defined.

(** ** More on [compare_guess] *)

Lemma range4_in_long (secret guess : list Z) :
  (4 ≤ length secret)%nat → (4 ≤ length guess)%nat →
  Forall (λ i, (i < length guess)%nat ∧ (i < length secret)%nat) range4.
Proof. intros Hs Hg. unfold range4. repeat constructor; lia. Qed.

Lemma same_at_short (secret guess : list Z) (i : nat) :
  (length guess ≤ i)%nat ∨ (length secret ≤ i)%nat →
  same_at secret guess i = Raise IndexError.
Proof.
  intros Hshort. unfold same_at, getitem.
  destruct (guess !! i) as [g|] eqn:Hg; [|done]. cbn.
  destruct (secret !! i) as [s|] eqn:Hs; [|done].
  apply lookup_lt_Some in Hg, Hs. lia.
Qed.

Lemma same_at_in (secret guess : list Z) (i : nat) :
  (i < length guess)%nat → (i < length secret)%nat →
  ∃ b, same_at secret guess i = Ok b.
Proof.
  intros [g Hg]%lookup_lt_is_Some [s Hs]%lookup_lt_is_Some.
  unfold same_at, getitem. rewrite Hg, Hs. cbn. eauto.
Qed.

Lemma count_positions_out_of_range (secret guess : list Z) (idx : list nat) :
  Exists (λ i, (length guess ≤ i)%nat ∨ (length secret ≤ i)%nat) idx →
  count_positions secret guess idx = Raise IndexError.
Proof.
  induction idx as [|i idx IH]; intros Hex; [by apply Exists_nil in Hex|].
  cbn [count_positions].
  destruct (decide ((length guess ≤ i)%nat ∨ (length secret ≤ i)%nat))
    as [Hshort|Hin].
  - by rewrite same_at_short.
  - destruct (same_at_in secret guess i) as [b ->]; [lia..|]. cbn.
    apply Exists_cons in Hex as [Hex|Hex]; [done|]. by rewrite IH.
Qed.

Lemma count_positions_short (secret guess : list Z) :
  (length secret < 4)%nat ∨ (length guess < 4)%nat →
  count_positions secret guess range4 = Raise IndexError.
Proof.
  intros Hshort. apply count_positions_out_of_range. unfold range4.
  apply Exists_exists. exists 3%nat. split; [set_solver|lia].
Qed.

(** X3: [compare_guess] raises exactly when one of the two strings has fewer
    than four characters, and what it raises is [IndexError]. *)
Theorem compare_guess_raises_iff (secret guess : list Z) :
  (∀ e, compare_guess secret guess = Raise e → e = IndexError)
  ∧ (compare_guess secret guess = Raise IndexError
     ↔ (length secret < 4)%nat ∨ (length guess < 4)%nat).
Proof.
  unfold compare_guess.
  destruct (decide ((length secret < 4)%nat ∨ (length guess < 4)%nat))
    as [Hshort|Hlong].
  - rewrite count_positions_short by done. cbn. split; [congruence|done].
  - rewrite count_positions_Ok by (apply range4_in_long; lia). cbn.
    split; [done|]. split; [done|]. intros; by exfalso.
Qed.

Lemma values_of_self (l : list Z) :
  length (filter (λ d, d ∈ l) l) = length l.
Proof.
  assert (∀ l', l' ⊆ l → filter (λ d, d ∈ l) l' = l') as Hsub.
  { induction l' as [|x l' IH]; intros Hl'; [done|].
    rewrite filter_cons, decide_True by set_solver.
    rewrite IH; [done|set_solver]. }
  by rewrite Hsub.
Qed.

(** X4: on two four-character strings the count of positions is 4 exactly
    when the guess equals the secret, and then the count of values is 4 as
    well; so a guess wins exactly when it is the opponent's secret. *)
Theorem full_match_iff_equal (secret guess : list Z) (values positions : nat) :
  length secret = 4%nat → length guess = 4%nat →
  compare_guess secret guess = Ok (values, positions) →
  (positions = 4%nat ↔ guess = secret) ∧ (positions = 4%nat → values = 4%nat).
Proof.
  intros Hs Hg. unfold compare_guess.
  rewrite count_positions_Ok by by apply range4_in_bounds.
  cbn [res_bind]. intros [= <- <-].
  assert (length (filter (λ i, guess !! i = secret !! i) range4) = 4%nat
          ↔ guess = secret) as Hiff.
  { destruct secret as [|s0 [|s1 [|s2 [|s3 [|]]]]]; try done.
    destruct guess as [|g0 [|g1 [|g2 [|g3 [|]]]]]; try done.
    unfold range4. rewrite !(length_filter_cons _ _ _), filter_nil. cbn.
    repeat case_decide; simplify_eq/=; split; (done || lia || congruence). }
  split; [done|]. intros ->%Hiff. by rewrite values_of_self.
Qed.

Lemma full_match_iff_equal_witness :
  ((4 = 4)%nat ↔ str "5678" = str "5678") ∧ ((4 = 4)%nat → (4 = 4)%nat).
Proof.
  apply (full_match_iff_equal (str "5678") (str "5678") 4 4); reflexivity.
Defined.

(** X5: when no character of a four-character guess occurs in the
    four-character secret, [compare_guess] returns (0, 0). *)
Theorem compare_guess_disjoint (secret guess : list Z) :
  length secret = 4%nat → length guess = 4%nat →
  (∀ c, c ∈ guess → c ∉ secret) →
  compare_guess secret guess = Ok (0%nat, 0%nat).
Proof.
  intros Hs Hg Hdisj.
  destruct (compare_guess_Ok secret guess Hs Hg) as (v & p & Hcmp & Hle).
  rewrite Hcmp. unfold compare_guess in Hcmp.
  destruct (count_positions secret guess range4); [|done].
  cbn in Hcmp. injection Hcmp as Hv <-.
  assert (filter (λ d, d ∈ secret) guess = []) as Hnone.
  { clear -Hdisj. induction guess as [|g guess IH]; [done|].
    rewrite filter_cons, decide_False by (apply Hdisj; set_solver).
    apply IH. intros c Hc. apply Hdisj. set_solver. }
  rewrite Hnone in Hv. cbn in Hv. subst v. f_equal. f_equal. lia.
Qed.

Lemma compare_guess_disjoint_witness :
  compare_guess (str "1234") (str "5678") = Ok (0%nat, 0%nat).
Proof.
  apply (compare_guess_disjoint (str "1234") (str "5678"));
    [reflexivity..|].
  change (str "5678") with [53; 54; 55; 56].
  change (str "1234") with [49; 50; 51; 52].
  intros c Hc Hs. set_solver.
Defined.

Lemma matching_digits_counted (secret guess : list Z) (idx : list nat) :
  ∀ ds, matching_digits secret guess idx = Ok ds →
        count_positions secret guess idx = Ok (length ds)
        ∧ Forall (λ d, d ∈ guess ∧ d ∈ secret) ds.
Proof.
  induction idx as [|i idx IH]; intros ds; cbn [matching_digits count_positions].
  - intros [= <-]. by split.
  - unfold same_at, getitem.
    destruct (guess !! i) as [g|] eqn:Hg; [|done]. cbn.
    destruct (secret !! i) as [s|] eqn:Hs; [|done]. cbn.
    destruct (matching_digits secret guess idx) as [rest|]; [|done]. cbn.
    destruct (IH rest eq_refl) as [-> Hall]. cbn. intros [= <-].
    case_bool_decide; [|done]. subst s. split; [done|].
    constructor; [|done].
    split; by eapply list_elem_of_lookup_2.
Qed.

(** X6: whenever [compare_guess] returns, the list of digits in correct
    position built in [guess] exists, has exactly as many entries as the
    count of positions, and holds only characters of both strings. *)
Theorem correct_digits_match_positions
    (secret guess : list Z) (values positions : nat) :
  compare_guess secret guess = Ok (values, positions) →
  ∃ ds, matching_digits secret guess range4 = Ok ds
        ∧ length ds = positions
        ∧ Forall (λ d, d ∈ guess ∧ d ∈ secret) ds.
Proof.
  intros Hcmp.
  destruct (decide ((length secret < 4)%nat ∨ (length guess < 4)%nat))
    as [Hshort|Hlong].
  { unfold compare_guess in Hcmp.
    by rewrite count_positions_short in Hcmp. }
  destruct (matching_digits_Ok secret guess range4) as [ds Hds];
    [apply range4_in_long; lia|].
  exists ds. split; [done|].
  destruct (matching_digits_counted _ _ _ _ Hds) as [Hcount Hall].
  unfold compare_guess in Hcmp. rewrite Hcount in Hcmp. cbn in Hcmp.
  injection Hcmp as _ <-. done.
Qed.

Lemma correct_digits_match_positions_witness :
  ∃ ds, matching_digits (str "5678") (str "5679") range4 = Ok ds
        ∧ length ds = 3%nat
        ∧ Forall (λ d, d ∈ str "5679" ∧ d ∈ str "5678") ds.
Proof.
  apply (correct_digits_match_positions (str "5678") (str "5679") 3 3).
  reflexivity.
Defined.

(** ** More on [join] *)

(** What a successful [join] does. *)
Lemma join_success (G : store) (u : update) (g : game) :
  store_get G (chat_id u) = Some g → is_private u = false →
  finished g = false → user_id u ∉ players g →
  (length (players g) < 2)%nat →
  (∀ pid, pid ∈ players g → is_Some (player_names g !! pid)) →
  let g' :=
    Game (players g ++ [user_id u])
         (<[user_id u := first_name u]> (player_names g))
         (<[user_id u := None]> (secrets g))
         (turn_index g) (finished g) in
  outcome (join u) G = Ok tt
  ∧ games_after (join u) G = store_set G (chat_id u) g'
  ∧ seat_of g' (user_id u) = Some (length (players g))
  ∧ sent_by (join u) G
    = Reply (Joined (first_name u) (S (length (players g))))
      :: match players g with
         | [p] => [Reply (TwoPlayersJoined
                            (default [] (player_names g !! p)) (first_name u))]
         | _ => []
         end.
Proof.
  intros Hg Hp Hfin Hnew Hfree Hnames g'.
  assert (seat_of g' (user_id u) = Some (length (players g))) as Hseat.
  { unfold seat_of, g'. cbn.
    destruct (players g) as [|p [|q ps]]; cbn in *; [|  |lia].
    - by rewrite decide_True.
    - rewrite decide_False by set_solver. cbn. by rewrite decide_True. }
  unfold outcome, games_after, sent_by.
  unfold join. rewrite Hp. msimpl. rewrite Hg, Hfin.
  rewrite bool_decide_false by done.
  destruct (Nat.leb_spec 2 (length (players g))); [lia|]. msimpl.
  rewrite !store_set_set.
  unfold set_secrets, set_player_names, set_players. cbn.
  rewrite length_app. cbn.
  destruct (players g) as [|p [|q ps]] eqn:Hps; cbn in *; [| |lia].
  - done.
  - destruct (Hnames p) as [np Hnp]; [set_solver|].
    assert (user_id u ≠ p) as Hne by set_solver.
    unfold dict_item. rewrite lookup_insert_ne by done. rewrite Hnp.
    rewrite lookup_insert_eq. by msimpl.
Qed.

(** X7: in a group chat whose game is unfinished and has fewer than two
    players, each with a stored name, a user who is not yet a player is
    appended to [players] (so the seat is the number of earlier players),
    gets the name and a [None] secret stored, and nothing else changes; the
    answer is "... joined the game! Players: n/2", followed, when the second
    seat is taken, by "Two players joined: ..." with the names in join
    order. *)
Theorem join_adds_player (G : store) (u : update) (g : game) :
  store_get G (chat_id u) = Some g → is_private u = false →
  finished g = false → user_id u ∉ players g →
  (length (players g) < 2)%nat →
  (∀ pid, pid ∈ players g → is_Some (player_names g !! pid)) →
  let g' :=
    Game (players g ++ [user_id u])
         (<[user_id u := first_name u]> (player_names g))
         (<[user_id u := None]> (secrets g))
         (turn_index g) (finished g) in
  outcome (join u) G = Ok tt
  ∧ games_after (join u) G = store_set G (chat_id u) g'
  ∧ seat_of g' (user_id u) = Some (length (players g))
  ∧ sent_by (join u) G
    = Reply (Joined (first_name u) (S (length (players g))))
      :: match players g with
         | [p] => [Reply (TwoPlayersJoined
                            (default [] (player_names g !! p)) (first_name u))]
         | _ => []
         end.
Proof. apply join_success. Qed.

Lemma join_adds_player_witness :
  outcome (join bob) (play [newgame ann; join ann] []) = Ok tt
  ∧ games_after (join bob) (play [newgame ann; join ann] []) = awaiting_table
  ∧ seat_of awaiting_game 2 = Some 1%nat
  ∧ sent_by (join bob) (play [newgame ann; join ann] [])
    = [Reply (Joined (str "Bob") 2);
       Reply (TwoPlayersJoined (str "Ann") (str "Bob"))].
Proof.
  destruct (join_adds_player (play [newgame ann; join ann] []) bob
              (Game [1] {[ 1 := str "Ann" ]} {[ 1 := None ]} 0 false))
    as (Hok & Hafter & Hseat & Hsent).
  - reflexivity.
  - reflexivity.
  - reflexivity.
  - cbn. set_solver.
  - cbn. lia.
  - cbn. intros pid ->%list_elem_of_singleton. by eexists.
  - split_and!.
    + exact Hok.
    + rewrite Hafter. by vm_compute.
    + by vm_compute.
    + rewrite Hsent. by vm_compute.
Defined.

(** X8: in a group chat with an unfinished game, a user who is already a
    player is answered "You already joined the game", also when the game is
    full, and any other user is answered "Game already has 2 players" once
    two have joined; where no game is stored the answer is "No active game
    here". In all three cases the table is unchanged. *)
Theorem join_refused (G : store) (u : update) :
  is_private u = false →
  (store_get G (chat_id u) = None →
   run (join u) G = (Ok tt, World G [Reply NoActiveGameHere]))
  ∧ ∀ g, store_get G (chat_id u) = Some g → finished g = false →
      (user_id u ∈ players g →
       run (join u) G = (Ok tt, World G [Reply AlreadyJoined]))
      ∧ (user_id u ∉ players g → (2 ≤ length (players g))%nat →
         run (join u) G = (Ok tt, World G [Reply GameFull])).
Proof.
  intros Hp. split.
  - intros Hg. unfold join. rewrite Hp. msimpl. by rewrite Hg.
  - intros g Hg Hfin. split.
    + intros Hin. unfold join. rewrite Hp. msimpl. rewrite Hg, Hfin.
      by rewrite bool_decide_true.
    + intros Hin Hfull. unfold join. rewrite Hp. msimpl. rewrite Hg, Hfin.
      rewrite bool_decide_false by done.
      by destruct (Nat.leb_spec 2 (length (players g))); [|lia].
Qed.

Lemma join_refused_witness :
  run (join eve) [] = (Ok tt, World [] [Reply NoActiveGameHere])
  ∧ run (join ann) started_table
    = (Ok tt, World started_table [Reply AlreadyJoined])
  ∧ run (join eve) started_table
    = (Ok tt, World started_table [Reply GameFull]).
Proof.
  destruct (join_refused [] eve eq_refl) as [Hnone _].
  destruct (join_refused started_table ann eq_refl) as [_ Hann].
  destruct (join_refused started_table eve eq_refl) as [_ Heve].
  split_and!.
  - by apply Hnone.
  - apply (Hann started_game); [reflexivity..|]. cbn. set_solver.
  - apply (Heve started_game); [reflexivity..| |cbn; lia]. cbn. set_solver.
Defined.

(** X9: sending [join] twice changes the table no more than sending it
    once, in any table and for any update. *)
Theorem join_idempotent (G : store) (u : update) :
  games_after (join u) (games_after (join u) G) = games_after (join u) G.
Proof.
  destruct (join_effect u G)
    as [Hsame|(g & Hg & Hfin & Hnew & Hfree & Hafter)].
  - by rewrite !Hsame.
  - rewrite Hafter.
    set (g' := Game _ _ _ _ _). set (G' := store_set G (chat_id u) g').
    destruct (join_effect u G') as [->|(g0 & Hg0 & _ & Hnew0 & _ & _)]; [done|].
    unfold G' in Hg0. rewrite store_get_set_eq in Hg0.
    injection Hg0 as <-. exfalso. apply Hnew0. cbn. set_solver.
Qed.

(** ** More on [secret] *)

Lemma store_set_middle (G1 G2 : store) (k : Z) (g g' : game) :
  k ∉ G1.*1 →
  store_set (G1 ++ (k, g) :: G2) k g' = G1 ++ (k, g') :: G2.
Proof.
  induction G1 as [|[k0 g0] G1 IH]; cbn; intros Hk.
  - by rewrite bool_decide_true.
  - rewrite bool_decide_false by set_solver. rewrite IH; [done|set_solver].
Qed.

Lemma scan_skips (uid : Z) (G1 G2 : store) :
  Forall (λ e, awaits_secret uid e.2 = false) G1 →
  filter (λ e, awaits_secret uid e.2 = true) (G1 ++ G2)
  = filter (λ e, awaits_secret uid e.2 = true) G2.
Proof.
  induction 1 as [|e G1 He _ IH]; [done|]. cbn [app].
  rewrite filter_cons, decide_False by congruence. done.
Qed.

(** Once the scan has selected a game, the secret is stored there and
    acknowledged, whatever happens afterwards. *)
Lemma secret_saved (u : update) (G : store) (a : list Z)
    (gid : Z) (g : game) (rest : store) :
  is_private u = true → args u = [a] → valid_secret (strip a) = true →
  filter (λ e, awaits_secret (user_id u) e.2 = true) G = (gid, g) :: rest →
  games_after (secret u) G
  = store_set G gid
      (set_secrets g (<[user_id u := Some (strip a)]> (secrets g)))
  ∧ ∃ tail, sent_by (secret u) G = Reply (SecretSaved gid) :: tail.
Proof.
  intros Hp Hargs Hvalid Hscan. unfold games_after, sent_by, secret.
  rewrite Hp, Hargs. msimpl. rewrite Hvalid. msimpl. rewrite Hscan. msimpl.
  repeat (case_match; msimpl; simplify_eq); eauto.
Qed.

(** X10: among the games that await the sender's secret, a well-formed
    secret sent in a private chat is stored in the one that comes first in
    the iteration order of [GAMES]; the games before and after it are
    untouched, also those after it that await the same sender, and the first
    answer is "Secret for game in group ... saved" for that game. *)
Theorem secret_goes_to_first_awaiting
    (G1 G2 : store) (gid : Z) (g : game) (u : update) (a : list Z) :
  NoDup (G1 ++ (gid, g) :: G2).*1 →
  is_private u = true → args u = [a] → valid_secret (strip a) = true →
  Forall (λ e, awaits_secret (user_id u) e.2 = false) G1 →
  awaits_secret (user_id u) g = true →
  games_after (secret u) (G1 ++ (gid, g) :: G2)
  = G1 ++ (gid, set_secrets g (<[user_id u := Some (strip a)]> (secrets g)))
       :: G2
  ∧ ∃ tail, sent_by (secret u) (G1 ++ (gid, g) :: G2)
            = Reply (SecretSaved gid) :: tail.
Proof.
  intros Hnd Hp Hargs Hvalid Hbefore Hhere.
  assert (gid ∉ G1.*1) as Hfresh.
  { rewrite fmap_app in Hnd. apply NoDup_app in Hnd as (_ & Hdisj & _).
    intros Hin. apply (Hdisj gid Hin). cbn. set_solver. }
  assert (∃ rest,
            filter (λ e, awaits_secret (user_id u) e.2 = true)
                   (G1 ++ (gid, g) :: G2) = (gid, g) :: rest) as [rest Hscan].
  { rewrite scan_skips by done. rewrite filter_cons, decide_True by done.
    by eexists. }
  destruct (secret_saved u _ a gid g rest Hp Hargs Hvalid Hscan)
    as [-> Hsent].
  split; [by apply store_set_middle|done].
Qed.

Lemma secret_goes_to_first_awaiting_witness :
  games_after (secret (with_args (in_private ann) "1234")) two_games_table
  = [(100, lonely_game); (200, joined_game)]
  ∧ ∃ tail, sent_by (secret (with_args (in_private ann) "1234")) two_games_table
            = Reply (SecretSaved 100) :: tail.
Proof.
  destruct (secret_goes_to_first_awaiting [] [(200, joined_game)] 100
              joined_game (with_args (in_private ann) "1234") (str "1234"))
    as [Hafter Hsent]; try reflexivity.
  - cbn. apply NoDup_cons. split; [set_solver|apply NoDup_singleton].
  - constructor.
  - split; [|exact Hsent]. etrans; [exact Hafter|]. by vm_compute.
Defined.

Lemma secret_set_after (g : game) (uid pid : Z) (num : list Z) :
  valid_secret num = true →
  secret_set (set_secrets g (<[uid := Some num]> (secrets g))) pid
  = if bool_decide (pid = uid) then true else secret_set g pid.
Proof.
  intros Hlen%valid_secret_length. unfold secret_set. cbn.
  case_bool_decide as Hpid.
  - subst pid. rewrite lookup_insert_eq. by destruct num.
  - by rewrite lookup_insert_ne.
Qed.

(** X11: when the game selected for a well-formed secret has two players
    with stored names, the secret is saved and acknowledged without an
    exception. If the other player's secret is already set, the bot looks up
    the chat and announces in the group that the game starts, naming the
    player who joined first before the other, and the game is in progress;
    otherwise nothing more is sent and the game still awaits a secret. *)
Theorem secret_in_two_player_game
    (G : store) (u : update) (a : list Z) (gid : Z) (g : game) (rest : store)
    (p1 p2 : Z) (n1 n2 : list Z) :
  is_private u = true → args u = [a] → valid_secret (strip a) = true →
  filter (λ e, awaits_secret (user_id u) e.2 = true) G = (gid, g) :: rest →
  players g = [p1; p2] →
  player_names g !! p1 = Some n1 → player_names g !! p2 = Some n2 →
  let g' := set_secrets g (<[user_id u := Some (strip a)]> (secrets g)) in
  let others_set :=
    forallb (λ pid, bool_decide (pid = user_id u) || secret_set g pid)
            (players g) in
  run (secret u) G
  = (Ok tt,
     World (store_set G gid g')
       (Reply (SecretSaved gid)
        :: if others_set
           then [GetChat gid; SendMessage gid (BothSecretsSet n1 n2)]
           else []))
  ∧ phase_of g' = if others_set then IN_PROGRESS else AWAITING_SECRETS.
Proof.
  intros Hp Hargs Hvalid Hscan Hps Hn1 Hn2 g' others_set.
  destruct (scan_head _ _ _ _ _ Hscan) as [_ Haw].
  assert (finished g = false) as Hfin.
  { unfold awaits_secret in Haw. by destruct (finished g); rewrite ?andb_false_r in Haw. }
  assert (all_secrets_set g' = others_set) as Hall.
  { unfold all_secrets_set, others_set, g'. cbn [players set_secrets].
    rewrite Hps. cbn [forallb]. by rewrite !secret_set_after. }
  split.
  - unfold secret. rewrite Hp, Hargs. msimpl. rewrite Hvalid. msimpl.
    rewrite Hscan. msimpl. fold g'. rewrite Hall.
    destruct others_set; msimpl; [|done].
    unfold g'. cbn [players player_names set_secrets]. rewrite Hps.
    cbn [getitem lookup list_lookup]. unfold dict_item. by rewrite Hn1, Hn2.
  - unfold phase_of. cbn [finished players set_secrets g'].
    rewrite Hfin, Hps. cbn [length Nat.ltb Nat.leb]. fold g'. by rewrite Hall.
Qed.

Lemma secret_in_two_player_game_witness :
  run (secret (with_args (in_private bob) "5678")) half_table
  = (Ok tt,
     World started_table
       [Reply (SecretSaved 100); GetChat 100;
        SendMessage 100 (BothSecretsSet (str "Ann") (str "Bob"))])
  ∧ phase_of started_game = IN_PROGRESS.
Proof.
  destruct (secret_in_two_player_game half_table
              (with_args (in_private bob) "5678") (str "5678") 100 half_game []
              1 2 (str "Ann") (str "Bob"))
    as [Hrun Hphase]; try reflexivity.
  split; [|reflexivity]. etrans; [exact Hrun|]. by vm_compute.
Defined.

(** X12: when the game selected for a well-formed secret has a single
    player, the secret is saved and acknowledged, the chat is looked up, and
    the handler then raises [IndexError] on [players[1]]; no announcement is
    sent. *)
Theorem secret_of_lone_player_raises
    (G : store) (u : update) (a : list Z) (gid : Z) (g : game) (rest : store)
    (p : Z) (n : list Z) :
  is_private u = true → args u = [a] → valid_secret (strip a) = true →
  filter (λ e, awaits_secret (user_id u) e.2 = true) G = (gid, g) :: rest →
  players g = [p] → player_names g !! p = Some n →
  run (secret u) G
  = (Raise IndexError,
     World (store_set G gid
              (set_secrets g (<[user_id u := Some (strip a)]> (secrets g))))
       [Reply (SecretSaved gid); GetChat gid]).
Proof.
  intros Hp Hargs Hvalid Hscan Hps Hn.
  destruct (scan_head _ _ _ _ _ Hscan) as [_ Haw].
  assert (user_id u = p) as Hu.
  { unfold awaits_secret in Haw. rewrite Hps in Haw.
    destruct (bool_decide (user_id u ∈ [p])) eqn:Hin; [|done].
    apply bool_decide_eq_true in Hin. set_solver. }
  unfold secret. rewrite Hp, Hargs. msimpl. rewrite Hvalid. msimpl.
  rewrite Hscan. msimpl.
  unfold all_secrets_set. cbn [players set_secrets]. rewrite Hps. cbn [forallb].
  rewrite secret_set_after by done. rewrite bool_decide_true by done.
  msimpl. cbn [player_names set_secrets getitem lookup list_lookup].
  unfold dict_item. rewrite Hn. done.
Qed.

Lemma secret_of_lone_player_raises_witness :
  run (secret (with_args (in_private ann) "1234"))
      (play [newgame ann; join ann] [])
  = (Raise IndexError,
     World lonely_table [Reply (SecretSaved 100); GetChat 100]).
Proof.
  etrans.
  - apply (secret_of_lone_player_raises (play [newgame ann; join ann] [])
             (with_args (in_private ann) "1234") (str "1234") 100 joined_game
             [] 1 (str "Ann")); reflexivity.
  - by vm_compute.
Defined.

(** ** When [guess] raises *)

Lemma getitem_int_elem {A} (l : list A) (i : Z) (x : A) :
  getitem_int l i = Ok x → x ∈ l.
Proof.
  unfold getitem_int, getitem.
  repeat case_match; try done; intros [= <-]; by eapply list_elem_of_lookup_2.
Qed.

Lemma getitem_int_raises {A} (l : list A) (i : Z) (e : exn) :
  getitem_int l i = Raise e → e = IndexError.
Proof.
  unfold getitem_int, getitem. repeat case_match; congruence.
Qed.

Lemma guess_waiting (G : store) (u : update) (g : game) (a : list Z) :
  store_get G (chat_id u) = Some g → is_private u = false →
  finished g = false → user_id u ∈ players g →
  args u = [a] → valid_secret (strip a) = true → all_secrets_set g = false →
  run (guess u) G = (Ok tt, World G [Reply WaitingForSecrets]).
Proof.
  intros Hg Hp Hfin Hin Hargs Hvalid Hset. unfold guess. rewrite Hp. msimpl.
  rewrite Hg, Hfin. rewrite bool_decide_true by done. msimpl.
  by rewrite Hargs, Hvalid, Hset.
Qed.

Lemma guess_lone_player (G : store) (u : update) (g : game) :
  store_get G (chat_id u) = Some g → lone_guess u g = true →
  run (guess u) G = (Raise IndexError, World G []).
Proof.
  unfold lone_guess. rewrite !andb_true_iff, !negb_true_iff.
  intros Hg ((((Hp & Hfin) & Hps%bool_decide_eq_true) & Hset) & Hargs).
  destruct (args u) as [|a [|]] eqn:Ha; try done.
  unfold guess. rewrite Hp. msimpl. rewrite Hg, Hfin.
  rewrite bool_decide_true by (rewrite Hps; set_solver). msimpl.
  rewrite Ha, Hargs. msimpl.
  unfold all_secrets_set. rewrite Hps. cbn [forallb]. rewrite Hset. msimpl.
  destruct (getitem_int [user_id u] (turn_index g)) as [cur|e] eqn:Hcur.
  - apply getitem_int_elem in Hcur as ->%list_elem_of_singleton.
    rewrite bool_decide_true by done. msimpl.
    rewrite filter_cons, decide_False, filter_nil by naive_solver. done.
  - by apply getitem_int_raises in Hcur as ->.
Qed.

Lemma guess_in_progress_ok (G : store) (u : update) (g : game) (a : list Z) :
  store_get G (chat_id u) = Some g → is_private u = false →
  wf_game g = true → phase_of g = IN_PROGRESS →
  user_id u ∈ players g → args u = [a] → valid_secret (strip a) = true →
  outcome (guess u) G = Ok tt.
Proof.
  intros Hg Hp Hwf Hph Hin Hargs Hvalid.
  destruct (in_progress_inv g Hwf Hph)
    as (x & y & nx & ny & sx & sy & Hps & Hxy & Hnx & Hny & _ & _ & _ & _
        & Ht & Hfin & Hset).
  assert (∃ cur nm, getitem_int (players g) (turn_index g) = Ok cur
                    ∧ player_names g !! cur = Some nm)
    as (cur & nm & Hcur & Hnm).
  { rewrite Hps. destruct Ht as [-> | ->]; cbn; eauto. }
  destruct (decide (cur = user_id u)) as [->|Hne].
  - destruct (guess_accepted G u g a Hg Hp Hwf Hph Hcur Hargs Hvalid)
      as (? & ? & ? & ? & p & ? & _ & _ & _ & _ & _ & _ & Hrun).
    unfold outcome. by rewrite Hrun.
  - unfold outcome, guess. rewrite Hp. msimpl. rewrite Hg, Hfin.
    rewrite bool_decide_true by done. msimpl.
    rewrite Hargs, Hvalid, Hset. msimpl. rewrite Hcur.
    rewrite bool_decide_false by congruence. msimpl.
    unfold dict_item. by rewrite Hnm.
Qed.

(** X13: on a well-formed game [guess] raises in one situation only: a
    well-formed guess by the only player of an unfinished game, whose secret
    is set. It then raises [IndexError] before anything is sent or changed;
    in every other situation it returns normally. *)
Theorem guess_raises_only_for_lone_player (G : store) (u : update) (g : game) :
  store_get G (chat_id u) = Some g → wf_game g = true →
  if lone_guess u g
  then run (guess u) G = (Raise IndexError, World G [])
  else outcome (guess u) G = Ok tt.
Proof.
  intros Hg Hwf. destruct (lone_guess u g) eqn:Hlone;
    [by apply (guess_lone_player G u g)|].
  unfold lone_guess in Hlone.
  destruct (is_private u) eqn:Hp.
  { unfold outcome, guess. rewrite Hp. by msimpl. }
  destruct (finished g) eqn:Hfin.
  { unfold outcome. by rewrite (guess_finished G u g). }
  destruct (decide (user_id u ∈ players g)) as [Hin|Hin];
    [|unfold outcome; by rewrite (guess_not_a_player G u g)].
  destruct (args u) as [|a [|]] eqn:Hargs;
    try (unfold outcome; rewrite (guess_usage G u g); [done..|];
         by rewrite Hargs).
  destruct (valid_secret (strip a)) eqn:Hvalid;
    [|unfold outcome; by rewrite (guess_invalid G u g a)].
  destruct (all_secrets_set g) eqn:Hset;
    [|unfold outcome; by rewrite (guess_waiting G u g a)].
  cbn in Hlone. rewrite andb_true_r in Hlone.
  pose proof Hwf as (Hnd & Hlen & _)%wf_game_iff.
  destruct (players g) as [|p [|q [|r ps]]] eqn:Hps; cbn in Hlen; try lia.
  - set_solver.
  - apply list_elem_of_singleton in Hin as <-.
    rewrite bool_decide_true in Hlone by done.
    unfold all_secrets_set in Hset. rewrite Hps in Hset. cbn in Hset.
    rewrite andb_true_r in Hset. by rewrite Hset in Hlone.
  - apply (guess_in_progress_ok G u g a); try done; [|by rewrite Hps].
    unfold phase_of. by rewrite Hfin, Hps, Hset.
Qed.

Lemma guess_raises_only_for_lone_player_witness :
  run (guess (with_args ann "5678")) lonely_table
  = (Raise IndexError, World lonely_table [])
  ∧ outcome (guess (with_args bob "5678")) lonely_table = Ok tt.
Proof.
  split.
  - apply (guess_raises_only_for_lone_player lonely_table
             (with_args ann "5678") lonely_game); reflexivity.
  - apply (guess_raises_only_for_lone_player lonely_table
             (with_args bob "5678") lonely_game); reflexivity.
Defined.

(** On a game whose players all have a stored name, [join] returns
    normally. *)
Lemma join_returns (G : store) (u : update) :
  (∀ g, store_get G (chat_id u) = Some g →
        ∀ pid, pid ∈ players g → is_Some (player_names g !! pid)) →
  outcome (join u) G = Ok tt.
Proof.
  intros Hnames. destruct (is_private u) eqn:Hp.
  { unfold outcome, join. rewrite Hp. by msimpl. }
  destruct (store_get G (chat_id u)) as [g|] eqn:Hg.
  2:{ unfold outcome, join. rewrite Hp. msimpl. by rewrite Hg. }
  destruct (finished g) eqn:Hfin.
  { unfold outcome. by rewrite (join_finished G u g). }
  destruct (decide (user_id u ∈ players g)) as [Hin|Hin].
  { unfold outcome, join. rewrite Hp. msimpl. rewrite Hg, Hfin.
    by rewrite bool_decide_true. }
  destruct (Nat.leb_spec 2 (length (players g))) as [Hfull|Hfree].
  { unfold outcome, join. rewrite Hp. msimpl. rewrite Hg, Hfin.
    rewrite bool_decide_false by done.
    by destruct (Nat.leb_spec 2 (length (players g))); [|lia]. }
  by apply (join_success G u g Hg Hp Hfin Hin Hfree (Hnames g eq_refl)).
Qed.

(** ** [cancel] and the other chats *)

Lemma store_pop_filter (G : store) (k : Z) :
  NoDup G.*1 → store_pop G k = filter (λ e, e.1 ≠ k) G.
Proof.
  induction G as [|[k0 g0] G IH]; [done|]. cbn [fmap list_fmap store_pop].
  intros [Hk0 Hnd]%NoDup_cons. rewrite filter_cons. cbn.
  case_bool_decide as Hk.
  - subst k0. rewrite decide_False by naive_solver.
    clear IH Hnd. induction G as [|[k1 g1] G IH]; [done|].
    rewrite filter_cons, decide_True by set_solver. f_equal.
    apply IH. set_solver.
  - rewrite decide_True by done. by rewrite IH.
Qed.


Lemma cancel_absent (G : store) (u : update) :
  is_private u = false → store_get G (chat_id u) = None →
  games_after (cancel u) G = G.
Proof.
  intros Hp Hg. unfold cancel. rewrite Hp. msimpl. by rewrite Hg.
Qed.

(** X14: [cancel] sent in a group chat removes the game stored for that
    chat, whether finished or not, and only that one: the other games stay
    in their order. The answer is "Game cancelled" when there was a game and
    "No active game to cancel" otherwise, so a second [cancel] changes
    nothing. *)
Theorem cancel_removes_the_game (G : store) (u : update) :
  NoDup G.*1 → is_private u = false →
  run (cancel u) G
  = (Ok tt,
     World (filter (λ e, e.1 ≠ chat_id u) G)
       [Reply (if store_get G (chat_id u) is Some _
               then GameCancelled else NoGameToCancel)])
  ∧ store_get (games_after (cancel u) G) (chat_id u) = None
  ∧ games_after (cancel u) (games_after (cancel u) G)
    = games_after (cancel u) G.
Proof.
  intros Hnd Hp.
  assert (run (cancel u) G
          = (Ok tt,
             World (filter (λ e, e.1 ≠ chat_id u) G)
               [Reply (if store_get G (chat_id u) is Some _
                       then GameCancelled else NoGameToCancel)])) as Hrun.
  { unfold cancel. rewrite Hp. msimpl.
    destruct (store_get G (chat_id u)) eqn:Hg; msimpl.
    - by rewrite store_pop_filter.
    - f_equal. f_equal. apply store_get_None in Hg.
      clear -Hg. induction G as [|[k0 g0] G IH]; [done|].
      rewrite filter_cons, decide_True by set_solver. rewrite <- IH at 1; [done|].
      set_solver. }
  split; [done|]. split; [by apply cancel_removes|].
  apply cancel_absent; [done|]. by apply cancel_removes.
Qed.

Lemma cancel_removes_the_game_witness :
  run (cancel ann) two_games_table
  = (Ok tt, World [(200, joined_game)] [Reply GameCancelled])
  ∧ store_get (games_after (cancel ann) two_games_table) 100 = None
  ∧ games_after (cancel ann) (games_after (cancel ann) two_games_table)
    = games_after (cancel ann) two_games_table.
Proof.
  assert (NoDup two_games_table.*1) as Hnd.
  { change (NoDup [100; 200]).
    apply NoDup_cons. split; [set_solver|apply NoDup_singleton]. }
  destruct (cancel_removes_the_game two_games_table ann Hnd eq_refl)
    as (Hrun & Hgone & Htwice).
  split_and!; [|exact Hgone|exact Htwice].
  etrans; [exact Hrun|]. by vm_compute.
Defined.



(** ** What holds in every reachable table *)

(** [guess] writes to the table only for a player of an unfinished game
    whose secrets are all set and who has an opponent. *)
Lemma guess_effect_strong (u : update) (G : store) :
  games_after (guess u) G = G
  ∨ ∃ g opp, store_get G (chat_id u) = Some g
         ∧ finished g = false
         ∧ all_secrets_set g = true
         ∧ user_id u ∈ players g
         ∧ opp ∈ players g ∧ opp ≠ user_id u
         ∧ (games_after (guess u) G = store_set G (chat_id u) (won g)
            ∨ games_after (guess u) G = store_set G (chat_id u) (passed g)).
Proof.
  unfold guess. destruct (is_private u); msimpl; [by left|].
  destruct (store_get G (chat_id u)) as [g|] eqn:Hg; msimpl; [|by left].
  destruct (finished g) eqn:Hfin; msimpl; [by left|].
  case_bool_decide as Hin; msimpl; [|by left].
  destruct (args u) as [|a [|]]; msimpl; try by left.
  destruct (valid_secret (strip a)); msimpl; [|by left].
  destruct (all_secrets_set g) eqn:Hset; msimpl; [|by left].
  destruct (getitem_int (players g) (turn_index g)) as [cur|];
    msimpl; [|by left].
  case_bool_decide; msimpl; [|by repeat (case_match; msimpl; try by left)].
  destruct (getitem _ 0) as [opp|] eqn:Hopp; msimpl; [|by left].
  assert (opp ∈ players g ∧ opp ≠ user_id u) as [Hoin Hone].
  { unfold getitem in Hopp.
    destruct (filter _ (players g) !! 0%nat) as [x|] eqn:Hx; [|done].
    injection Hopp as ->.
    apply list_elem_of_lookup_2, list_elem_of_filter in Hx. naive_solver. }
  destruct (dict_item (player_names g) opp) as [opp_name|]; msimpl; [|by left].
  destruct (dict_item (secrets g) opp) as [opp_secret|]; msimpl; [|by left].
  destruct (compare_with opp_secret (strip a)) as [[[v p] ds]|];
    msimpl; [|by left].
  right. exists g, opp. split_and!; try done.
  destruct (p =? 4)%nat; msimpl; [by left|].
  right. repeat (case_match; msimpl; try done).
Qed.

Lemma two_players (g : game) (x y : Z) :
  wf_game g = true → x ∈ players g → y ∈ players g → x ≠ y →
  length (players g) = 2%nat.
Proof.
  intros (_ & Hlen & _)%wf_game_iff Hx Hy Hxy.
  destruct (players g) as [|p [|q [|r ps]]]; cbn in *; try lia; set_solver.
Qed.

Lemma all_secrets_set_after (g : game) (uid : Z) (num : list Z) :
  valid_secret num = true → all_secrets_set g = true →
  all_secrets_set (set_secrets g (<[uid := Some num]> (secrets g))) = true.
Proof.
  intros Hvalid. unfold all_secrets_set. cbn [players set_secrets].
  rewrite !forallb_forall. intros Hall pid Hpid.
  rewrite secret_set_after by done. case_bool_decide; [done|by apply Hall].
Qed.

(** X16: in every table the bot can reach from the empty one, the chat ids
    are pairwise distinct and every stored game has at most two players, all
    distinct and each with a stored name, only secrets that passed
    [valid_secret], and a turn index that is 0 or 1. *)
Theorem reachable_tables_well_formed (G : store) (k : Z) (g : game) :
  reachable G → store_get G k = Some g →
  NoDup G.*1
  ∧ NoDup (players g)
  ∧ (length (players g) ≤ 2)%nat
  ∧ (∀ pid, pid ∈ players g → is_Some (player_names g !! pid))
  ∧ (∀ pid s, pid ∈ players g → secrets g !! pid = Some (Some s) →
              valid_secret s = true)
  ∧ (turn_index g = 0 ∨ turn_index g = 1).
Proof.
  intros HG Hg. split; [by apply reachable_NoDup|].
  apply wf_game_iff. by eapply reachable_wf.
Qed.

Lemma reachable_tables_well_formed_witness :
  NoDup started_table.*1
  ∧ NoDup (players started_game)
  ∧ (length (players started_game) ≤ 2)%nat
  ∧ (∀ pid, pid ∈ players started_game →
            is_Some (player_names started_game !! pid))
  ∧ (∀ pid s, pid ∈ players started_game →
              secrets started_game !! pid = Some (Some s) →
              valid_secret s = true)
  ∧ (turn_index started_game = 0 ∨ turn_index started_game = 1).
Proof.
  apply (reachable_tables_well_formed started_table 100 started_game).
  - apply (play_reachable
             [(CmdNewgame, ann); (CmdJoin, ann); (CmdJoin, bob);
              (CmdSecret, with_args (in_private ann) "1234");
              (CmdSecret, with_args (in_private bob) "5678")] []).
    constructor.
  - reflexivity.
Defined.

Lemma turn_untouched_step (c : command) (u : update) (G : store) :
  store_ok G → Forall (λ e, turn_untouched e.2) G →
  Forall (λ e, turn_untouched e.2) (games_after (dispatch c u) G).
Proof.
  intros Hok HG.
  assert (∀ k g, store_get G k = Some g → turn_untouched g) as Hget.
  { intros k g Hg%store_get_elem. rewrite Forall_forall in HG.
    by apply (HG (k, g)). }
  destruct c; cbn [dispatch].
  - destruct (newgame_effect u G) as [->|[_ ->]]; [done|].
    apply store_set_Forall; [done|]. by left.
  - destruct (join_effect u G) as [->|(g & Hg & _ & _ & Hfree & ->)]; [done|].
    apply store_set_Forall; [done|]. cbn.
    destruct (Hget _ _ Hg) as [Ht|[Hlen _]]; [by left|lia].
  - destruct (secret_effect u G)
      as [->|(a & gid & g & rest & _ & Hvalid & Hscan & ->)]; [done|].
    apply store_set_Forall; [done|]. cbn.
    apply scan_head in Hscan as [Hin _]. rewrite Forall_forall in HG.
    destruct (HG _ Hin) as [Ht|[Hlen Hset]]; [by left|right].
    split; [done|]. by apply all_secrets_set_after.
  - destruct (guess_effect_strong u G)
      as [->|(g & opp & Hg & _ & Hset & Hin & Hoin & Hone & [->| ->])];
      [done|..]; (apply store_set_Forall; [done|]); cbn.
    + by apply (Hget _ _ Hg).
    + right. split; [|done].
      apply (two_players g opp (user_id u)); [by eapply store_ok_get|done..].
  - destruct (cancel_effect u G) as [->| ->]; [done|].
    by apply store_pop_Forall.
Qed.

Lemma reachable_turn_untouched (G : store) :
  reachable G → Forall (λ e, turn_untouched e.2) G.
Proof.
  induction 1 as [|G c u HG IH]; [constructor|].
  apply turn_untouched_step; [by apply reachable_store_ok|done].
Qed.

Lemma reachable_before_play (G : store) (k : Z) (g : game) :
  reachable G → store_get G k = Some g →
  phase_of g = FORMING ∨ phase_of g = AWAITING_SECRETS →
  turn_index g = 0.
Proof.
  intros HG Hg%store_get_elem Hph.
  pose proof (reachable_turn_untouched G HG) as Hall.
  rewrite Forall_forall in Hall.
  destruct (Hall _ Hg) as [Ht|[Hlen Hset]]; [done|]. cbn in *.
  unfold phase_of in Hph. rewrite Hlen, Hset in Hph. cbn in Hph.
  destruct (finished g); naive_solver.
Qed.

(** A game only comes to be in progress through [secret], which leaves
    [players] and [turn_index] as they are. *)
Lemma play_starts_by_secret
    (c : command) (v : update) (G : store) (k : Z) (g g' : game) :
  store_ok G → store_get G k = Some g →
  phase_of g = FORMING ∨ phase_of g = AWAITING_SECRETS →
  store_get (games_after (dispatch c v) G) k = Some g' →
  phase_of g' = IN_PROGRESS →
  turn_index g' = turn_index g ∧ players g' = players g.
Proof.
  intros Hok Hg Hph Hg' Hph'.
  assert (g' ≠ g) as Hne by (intros ->; destruct Hph; congruence).
  assert (store_get G k ≠ Some g') as Hold by congruence.
  pose proof Hok as [Hnd _].
  destruct c; cbn [dispatch] in Hg'.
  - destruct (newgame_effect v G) as [Heq|[_ Heq]]; rewrite Heq in Hg';
      [done|].
    rewrite store_get_set in Hg'. case_bool_decide; [|done].
    by injection Hg' as <-.
  - destruct (join_effect v G) as [Heq|(g0 & _ & _ & _ & _ & Heq)];
      rewrite Heq in Hg'; [done|].
    rewrite store_get_set in Hg'. case_bool_decide; [|done].
    injection Hg' as <-. exfalso. revert Hph'.
    unfold phase_of, all_secrets_set, secret_set. cbn.
    rewrite forallb_app. cbn. rewrite lookup_insert_eq.
    rewrite andb_false_r. by repeat case_match.
  - destruct (secret_effect v G)
      as [Heq|(a & gid & g0 & rest & _ & _ & Hscan & Heq)];
      rewrite Heq in Hg'; [done|].
    apply scan_head in Hscan as [Hin _].
    rewrite store_get_set in Hg'. case_bool_decide; [subst gid|done].
    apply store_get_Some in Hin; [|done].
    assert (g0 = g) as -> by congruence. by injection Hg' as <-.
  - destruct (guess_effect_strong v G)
      as [Heq|(g0 & opp & Hg0 & Hfin & Hset & Hin & Hoin & Hone & Heq)];
      [by rewrite Heq in Hg'|].
    assert (store_get (games_after (guess v) G) k = store_get G k); [|congruence].
    assert (chat_id v ≠ k) as Hk.
    { intros <-. assert (g0 = g) as -> by congruence.
      pose proof (two_players g opp (user_id v)
                    (store_ok_get _ _ _ Hok Hg) Hoin Hin Hone) as Hlen.
      unfold phase_of in Hph. rewrite Hfin, Hlen, Hset in Hph.
      cbn in Hph. naive_solver. }
    destruct Heq as [-> | ->]; by apply store_get_set_ne.
  - destruct (cancel_effect v G) as [Heq|Heq]; rewrite Heq in Hg'; [done|].
    rewrite store_get_pop in Hg' by done. by case_bool_decide.
Qed.

(** A guess is answered with a result only if its sender is the player at
    [turn_index] of the game of the chat. *)
Lemma guess_evaluated_by_current
    (u : update) (G : store) (name gs : list Z) (vs ps : nat) (ds : list Z) :
  Reply (GuessResult name gs vs ps ds) ∈ sent_by (guess u) G →
  ∃ g, store_get G (chat_id u) = Some g
       ∧ getitem_int (players g) (turn_index g) = Ok (user_id u).
Proof.
  unfold guess. destruct (is_private u); msimpl; [set_solver|].
  destruct (store_get G (chat_id u)) as [g|] eqn:Hg; msimpl; [|set_solver].
  destruct (finished g); msimpl; [set_solver|].
  case_bool_decide; msimpl; [|set_solver].
  destruct (args u) as [|a [|]]; msimpl; try set_solver.
  destruct (valid_secret (strip a)); msimpl; [|set_solver].
  destruct (all_secrets_set g); msimpl; [|set_solver].
  destruct (getitem_int (players g) (turn_index g)) as [cur|] eqn:Hcur;
    msimpl; [|set_solver].
  case_bool_decide as Hu; msimpl.
  - subst cur. eauto.
  - repeat (case_match; msimpl); set_solver.
Qed.

(** X17: in every reachable table, a game that is neither in progress nor
    finished has [turn_index] 0. When an update then puts that game in
    progress, its players are the same, [turn_index] is still 0, and every
    guess that is answered with a result in the table so reached comes from
    [players[0]], the player who joined first. *)
Theorem first_joiner_moves_first (G : store) (k : Z) (g : game) :
  reachable G → store_get G k = Some g →
  phase_of g = FORMING ∨ phase_of g = AWAITING_SECRETS →
  turn_index g = 0
  ∧ ∀ c v g',
      store_get (games_after (dispatch c v) G) k = Some g' →
      phase_of g' = IN_PROGRESS →
      turn_index g' = 0
      ∧ players g' = players g
      ∧ ∀ u name gs vs ps ds,
          chat_id u = k →
          Reply (GuessResult name gs vs ps ds)
            ∈ sent_by (guess u) (games_after (dispatch c v) G) →
          players g !! 0%nat = Some (user_id u).
Proof.
  intros HG Hg Hph.
  pose proof (reachable_before_play G k g HG Hg Hph) as Ht.
  split; [done|]. intros c v g' Hg' Hph'.
  destruct (play_starts_by_secret c v G k g g') as [Ht' Hps];
    [by apply reachable_store_ok|done..|].
  split_and!; [congruence|done|].
  intros u name gs vs ps ds Hk Hres.
  apply guess_evaluated_by_current in Hres as (g0 & Hg0 & Hcur).
  rewrite Hk, Hg' in Hg0. injection Hg0 as <-.
  rewrite Ht', Ht, Hps in Hcur. cbn in Hcur. unfold getitem in Hcur.
  change (Z.to_nat 0) with 0%nat in Hcur.
  destruct (players g !! 0%nat); by simplify_eq.
Qed.

Lemma first_joiner_moves_first_witness :
  turn_index half_game = 0
  ∧ ∀ u name gs vs ps ds,
      chat_id u = 100 →
      Reply (GuessResult name gs vs ps ds)
        ∈ sent_by (guess u)
            (games_after
               (dispatch CmdSecret (with_args (in_private bob) "5678"))
               half_table) →
      players half_game !! 0%nat = Some (user_id u).
Proof.
  destruct (first_joiner_moves_first half_table 100 half_game)
    as [Hturn Hplay].
  - apply (play_reachable
             [(CmdNewgame, ann); (CmdJoin, ann); (CmdJoin, bob);
              (CmdSecret, with_args (in_private ann) "1234")] []).
    constructor.
  - reflexivity.
  - by right.
  - split; [exact Hturn|].
    destruct (Hplay CmdSecret (with_args (in_private bob) "5678") started_game)
      as (_ & _ & Hfirst); [reflexivity..|].
    exact Hfirst.
Defined.

(** ** Phases only move forward *)

Lemma phase_after_secret (g : game) (uid : Z) (num : list Z) :
  valid_secret num = true →
  (phase_rank (phase_of g)
   ≤ phase_rank (phase_of (set_secrets g (<[uid := Some num]> (secrets g)))))%nat.
Proof.
  intros Hvalid. unfold phase_of. cbn [finished players set_secrets].
  destruct (finished g); [done|].
  destruct (length (players g) <? 2)%nat; [done|].
  destruct (all_secrets_set g) eqn:Hset.
  - by rewrite all_secrets_set_after.
  - case_match; cbn; lia.
Qed.

Lemma phase_passed (g : game) : phase_of (passed g) = phase_of g.
Proof. done. Qed.

(** X18: under [join], [secret] and [guess], whoever sends them, the phase
    of the game stored for a chat never moves backwards in the order
    forming, awaiting secrets, in progress, finished. *)
Theorem phase_never_goes_back
    (op : session_op) (u : update) (G : store) (k : Z) (g : game) :
  NoDup G.*1 → store_get G k = Some g →
  ∃ g', store_get (games_after (handler op u) G) k = Some g'
        ∧ (phase_rank (phase_of g) ≤ phase_rank (phase_of g'))%nat.
Proof.
  intros Hnd Hg. destruct op; cbn [handler].
  - destruct (join_effect u G)
      as [->|(g0 & Hg0 & Hfin & _ & Hfree & ->)]; [by eauto|].
    rewrite store_get_set. case_bool_decide as Hk; [|by eauto].
    rewrite Hk in Hg0. assert (g0 = g) as -> by congruence.
    eexists. split; [done|]. unfold phase_of at 1. rewrite Hfin.
    destruct (Nat.ltb_spec (length (players g)) 2); [cbn; lia|lia].
  - destruct (secret_effect u G)
      as [->|(a & gid & g0 & rest & _ & Hvalid & Hscan & ->)]; [by eauto|].
    apply scan_head in Hscan as [Hin _].
    rewrite store_get_set. case_bool_decide as Hk; [|by eauto].
    subst gid. apply store_get_Some in Hin; [|done].
    assert (g0 = g) as -> by congruence.
    eexists. split; [done|]. by apply phase_after_secret.
  - destruct (guess_effect u G) as [->|(g0 & Hg0 & _ & [->| ->])];
      [by eauto|..];
      rewrite store_get_set; (case_bool_decide as Hk; [|by eauto]);
      rewrite Hk in Hg0; assert (g0 = g) as -> by congruence;
      eexists; (split; [done|]).
    + destruct (phase_of g); cbn; lia.
    + fold (passed g). by rewrite phase_passed.
Qed.

Lemma phase_never_goes_back_witness :
  ∃ g', store_get
          (games_after (handler OpSecret (with_args (in_private bob) "5678"))
                       half_table) 100 = Some g'
        ∧ (phase_rank (phase_of half_game) ≤ phase_rank (phase_of g'))%nat.
Proof.
  apply (phase_never_goes_back OpSecret (with_args (in_private bob) "5678")
           half_table 100 half_game).
  - change (NoDup [100]). apply NoDup_singleton.
  - reflexivity.
Defined.

(** ** From a new game to the first guess *)

Lemma scan_none (uid : Z) (G : store) :
  Forall (λ e, awaits_secret uid e.2 = false) G →
  filter (λ e, awaits_secret uid e.2 = true) G = [].
Proof.
  induction 1 as [|e G He _ IH]; [done|].
  rewrite filter_cons, IH. case_decide; [congruence|done].
Qed.

Lemma scan_store_set (uid : Z) (G : store) (k : Z) (g : game) :
  NoDup G.*1 →
  Forall (λ e, e.1 ≠ k → awaits_secret uid e.2 = false) G →
  awaits_secret uid g = true →
  filter (λ e, awaits_secret uid e.2 = true) (store_set G k g) = [(k, g)].
Proof.
  intros Hnd Hothers Hg.
  induction G as [|[k0 g0] G IH]; cbn [store_set].
  - by rewrite filter_cons, decide_True.
  - apply NoDup_cons in Hnd as [Hk0 Hnd].
    apply Forall_cons in Hothers as [H0 Hothers]. cbn in H0, Hk0.
    case_bool_decide as Hk.
    + subst k0. rewrite filter_cons, decide_True by done. f_equal.
      apply scan_none. apply Forall_forall. intros [k1 g1] Hin.
      rewrite Forall_forall in Hothers. apply (Hothers _ Hin). cbn.
      intros ->. apply Hk0. apply list_elem_of_fmap. by exists (k, g1).
    + rewrite filter_cons, decide_False; [by apply IH|].
      cbn. by rewrite H0.
Qed.

(** X19: take a table with one game per chat id in which chat [k] has no
    unfinished game and no game of another chat awaits a secret of [a] or
    [b]. After [newgame] in [k], [join] by [a], [join] by [b] and a
    well-formed [secret] from each of the two, the game of [k] has the
    players [a], [b] in this order with their names and secrets, it is in
    progress, and it is [a]'s turn. *)
Theorem setup_reaches_play
    (G : store) (k a b : Z) (na nb sa sb : list Z) :
  NoDup G.*1 → has_active G k = false → a ≠ b →
  valid_secret (strip sa) = true → valid_secret (strip sb) = true →
  Forall (λ e, e.1 ≠ k → awaits_secret a e.2 = false) G →
  Forall (λ e, e.1 ≠ k → awaits_secret b e.2 = false) G →
  ∃ g, store_get (play (setup k a b na nb sa sb) G) k = Some g
       ∧ players g = [a; b]
       ∧ player_names g !! a = Some na ∧ player_names g !! b = Some nb
       ∧ secrets g !! a = Some (Some (strip sa))
       ∧ secrets g !! b = Some (Some (strip sb))
       ∧ phase_of g = IN_PROGRESS
       ∧ getitem_int (players g) (turn_index g) = Ok a.
Proof.
  intros Hnd Hact Hab Hva Hvb Hoa Hob.
  unfold setup, play. cbn [fold_left].
  set (ua := Update Group k a na []). set (ub := Update Group k b nb []).
  set (pa := Update Private a a na [sa]). set (pb := Update Private b b nb [sb]).
  (* newgame *)
  assert (games_after (newgame ua) G = store_set G k new_game) as ->.
  { unfold games_after. by rewrite (newgame_fresh G ua). }
  (* join by a *)
  set (g1 := Game [a] (<[a := na]> ∅) (<[a := None]> ∅) 0 false).
  assert (games_after (join ua) (store_set G k new_game) = store_set G k g1)
    as ->.
  { destruct (join_success (store_set G k new_game) ua new_game)
      as (_ & -> & _); try done.
    - apply store_get_set_eq.
    - cbn. set_solver.
    - cbn. lia.
    - cbn. set_solver.
    - by rewrite store_set_set. }
  (* join by b *)
  set (g2 := Game [a; b] (<[b := nb]> (<[a := na]> ∅))
                  (<[b := None]> (<[a := None]> ∅)) 0 false).
  assert (games_after (join ub) (store_set G k g1) = store_set G k g2) as ->.
  { destruct (join_success (store_set G k g1) ub g1) as (_ & -> & _); try done.
    - apply store_get_set_eq.
    - cbn. set_solver.
    - cbn. lia.
    - cbn. intros pid ->%list_elem_of_singleton.
      rewrite lookup_insert_eq. by eexists.
    - by rewrite store_set_set. }
  (* secret from a *)
  set (g3 := set_secrets g2 (<[a := Some (strip sa)]> (secrets g2))).
  assert (games_after (secret pa) (store_set G k g2) = store_set G k g3) as ->.
  { destruct (secret_saved pa (store_set G k g2) sa k g2 []) as [-> _];
      try done; [|by rewrite store_set_set].
    apply scan_store_set; try done.
    unfold awaits_secret, secret_is_none. cbn.
    rewrite bool_decide_true by set_solver.
    rewrite lookup_insert_ne by done. by rewrite lookup_insert_eq. }
  (* secret from b *)
  set (g4 := set_secrets g3 (<[b := Some (strip sb)]> (secrets g3))).
  assert (games_after (secret pb) (store_set G k g3) = store_set G k g4) as ->.
  { destruct (secret_saved pb (store_set G k g3) sb k g3 []) as [-> _];
      try done; [|by rewrite store_set_set].
    apply scan_store_set; try done.
    unfold awaits_secret, secret_is_none. cbn.
    rewrite bool_decide_true by set_solver.
    rewrite lookup_insert_ne by done. by rewrite lookup_insert_eq. }
  exists g4. rewrite store_get_set_eq.
  assert (secrets g4 !! a = Some (Some (strip sa))) as Hsa.
  { cbn. rewrite lookup_insert_ne by done. by rewrite lookup_insert_eq. }
  assert (secrets g4 !! b = Some (Some (strip sb))) as Hsb.
  { cbn. by rewrite lookup_insert_eq. }
  split_and!; try done.
  - cbn. rewrite lookup_insert_ne by done. by rewrite lookup_insert_eq.
  - cbn. by rewrite lookup_insert_eq.
  - unfold phase_of, all_secrets_set, secret_set. cbn [finished players g4 g3 g2 set_secrets].
    cbn [length Nat.ltb Nat.leb forallb]. fold g2 g3 g4. rewrite Hsa, Hsb.
    apply valid_secret_length in Hva, Hvb.
    by destruct (strip sa), (strip sb).
Qed.

Lemma setup_reaches_play_witness :
  ∃ g, store_get
         (play (setup 100 1 2 (str "Ann") (str "Bob") (str "1234") (str "5678"))
               finished_table) 100 = Some g
       ∧ players g = [1; 2]
       ∧ player_names g !! 1 = Some (str "Ann")
       ∧ player_names g !! 2 = Some (str "Bob")
       ∧ secrets g !! 1 = Some (Some (strip (str "1234")))
       ∧ secrets g !! 2 = Some (Some (strip (str "5678")))
       ∧ phase_of g = IN_PROGRESS
       ∧ getitem_int (players g) (turn_index g) = Ok 1.
Proof.
  apply (setup_reaches_play finished_table 100 1 2 (str "Ann") (str "Bob")
           (str "1234") (str "5678")); try reflexivity.
  - change (NoDup [100]). apply NoDup_singleton.
  - discriminate.
  - rewrite finished_table_eq. by repeat constructor.
  - rewrite finished_table_eq. by repeat constructor.
Defined.

(** ** [status] *)

Lemma names_of_Ok (g : game) (pids : list Z) :
  (∀ pid, pid ∈ pids → is_Some (player_names g !! pid)) →
  ∃ names, names_of g pids = Ok names
           ∧ Forall2 (λ pid name, player_names g !! pid = Some name) pids names.
Proof.
  induction pids as [|pid pids IH]; intros Hnames; [by eexists|].
  destruct (Hnames pid) as [name Hname]; [set_solver|].
  destruct IH as (names & Hrest & Hall); [set_solver|].
  exists (name :: names). cbn [names_of]. unfold dict_item.
  rewrite Hname. cbn. rewrite Hrest. cbn. split; [done|by constructor].
Qed.

Lemma count_all_iff {A} (f : A → bool) (l : list A) :
  (length (filter (λ x, f x = true) l) ≤ length l)%nat
  ∧ (length (filter (λ x, f x = true) l) = length l ↔ forallb f l = true).
Proof.
  induction l as [|x l [IH1 IH2]]; [done|].
  rewrite length_filter_cons. cbn [length forallb].
  destruct (f x); case_decide; try done; cbn; split; try lia.
  rewrite <- IH2. lia.
Qed.

(** X20: for an unfinished, well-formed game, [status] sent in the game's
    group chat does not raise: it reports the stored names of the players in
    join order, the number of players whose secret is set, which is at most
    the number of players and equals it exactly when [guess] no longer
    answers "Waiting for both players", and the turn index. *)
Theorem status_report (G : store) (u : update) (g : game) :
  store_get G (chat_id u) = Some g → is_private u = false →
  wf_game g = true → finished g = false →
  ∃ names,
    status u G = Ok (StatusLine names (count_secrets_set g) (turn_index g))
    ∧ Forall2 (λ pid name, player_names g !! pid = Some name)
              (players g) names
    ∧ (count_secrets_set g ≤ length (players g) ≤ 2)%nat
    ∧ (count_secrets_set g = length (players g) ↔ all_secrets_set g = true).
Proof.
  intros Hg Hp (_ & Hlen & Hnames & _)%wf_game_iff Hfin.
  destruct (names_of_Ok g (players g) Hnames) as (names & Hok & Hall).
  exists names. unfold status. rewrite Hp, Hg, Hfin, Hok. cbn.
  destruct (count_all_iff (secret_set g) (players g)) as [Hle Hiff].
  split_and!; try done.
Qed.

Lemma status_report_witness :
  ∃ names,
    status ann half_table
    = Ok (StatusLine names (count_secrets_set half_game)
                     (turn_index half_game))
    ∧ Forall2 (λ pid name, player_names half_game !! pid = Some name)
              (players half_game) names
    ∧ (count_secrets_set half_game ≤ length (players half_game) ≤ 2)%nat
    ∧ (count_secrets_set half_game = length (players half_game)
       ↔ all_secrets_set half_game = true).
Proof.
  apply (status_report half_table ann half_game); reflexivity.
Defined.

(** X21: in every reachable table, [newgame], [join], [cancel] and
    [status] return normally, whatever the update. *)
Theorem only_guess_and_secret_raise (G : store) (u : update) :
  reachable G →
  outcome (newgame u) G = Ok tt
  ∧ outcome (join u) G = Ok tt
  ∧ outcome (cancel u) G = Ok tt
  ∧ ∃ m, status u G = Ok m.
Proof.
  intros HG. split_and!.
  - unfold outcome, newgame. repeat (case_match; msimpl; simplify_eq); done.
  - apply join_returns. intros g Hg.
    by apply (reachable_wf G _ g HG) in Hg as (_ & _ & ? & _)%wf_game_iff.
  - unfold outcome, cancel. repeat (case_match; msimpl; simplify_eq); done.
  - unfold status. destruct (is_private u); [by eexists|].
    destruct (store_get G (chat_id u)) as [g|] eqn:Hg; [|by eexists].
    destruct (finished g); [by eexists|].
    apply (reachable_wf G _ g HG) in Hg as (_ & _ & Hnames & _)%wf_game_iff.
    destruct (names_of_Ok g (players g) Hnames) as (names & -> & _).
    by eexists.
Qed.

Lemma only_guess_and_secret_raise_witness :
  outcome (newgame eve) started_table = Ok tt
  ∧ outcome (join eve) started_table = Ok tt
  ∧ outcome (cancel eve) started_table = Ok tt
  ∧ ∃ m, status eve started_table = Ok m.
Proof.
  apply (only_guess_and_secret_raise started_table eve).
  apply (play_reachable
           [(CmdNewgame, ann); (CmdJoin, ann); (CmdJoin, bob);
            (CmdSecret, with_args (in_private ann) "1234");
            (CmdSecret, with_args (in_private bob) "5678")] []).
  constructor.
Defined.
